(** * simpleperf [api-prepare] / [api-collect]: a shallow embedding of cmd_api.cpp

    The two command handlers of cmd_api.cpp are embedded as functions over an
    explicit world (system properties, the recording data directory, the zip
    stream on the output descriptor and the log of calls to collaborators).
    Results of collaborators that live outside this file (the property
    service, the package manager, the kernel, libziparchive) are supplied by
    an environment record, so every theorem holds for all of their possible
    behaviours. *)

From Stdlib Require Import ZArith Lia Bool Ascii String.
From stdpp Require Import gmap strings list fin_maps pretty.

Local Open Scope Z_scope.

(** ** Machine integers *)

Definition UINT64_MAX : Z := 18446744073709551615.
Definition UINT32_MAX : Z := 4294967295.

Definition fits_uint64 (x : Z) : bool := (0 <=? x) && (x <=? UINT64_MAX).

Definition wrap_uint64 (x : Z) : Z := x mod 2 ^ 64.

(** [__builtin_mul_overflow(a, b, &res)] with a [uint64_t] result: the product
    is formed with unbounded precision, [res] receives it reduced to 64 bits
    and the call returns whether that lost information. *)
Definition builtin_mul_overflow (a b : Z) : bool * Z :=
  let r := a * b in (negb (fits_uint64 r), wrap_uint64 r).

(** [__builtin_add_overflow(a, b, &res)], same conventions. *)
Definition builtin_add_overflow (a b : Z) : bool * Z :=
  let r := a + b in (negb (fits_uint64 r), wrap_uint64 r).

(** Lines 74-79 of [PrepareCommand::Run]: [days] is [days_], [now] is the value
    of [time(nullptr)].  The [||] does not evaluate the addition once the
    multiplication has overflowed. *)
Definition expiration_time (days now : Z) : Z :=
  let '(mul_ovf, duration_in_sec) := builtin_mul_overflow days (24 * 3600) in
  if mul_ovf then UINT64_MAX
  else
    let '(add_ovf, expiration) := builtin_add_overflow now duration_in_sec in
    if add_ovf then UINT64_MAX else expiration.

(** The reading of the specification: now + days * 86400, replaced by the
    sentinel when the product or the sum leaves the unsigned 64-bit range. *)
Definition expiration_spec (days now : Z) : Z :=
  if fits_uint64 (days * 86400) && fits_uint64 (now + days * 86400)
  then now + days * 86400
  else UINT64_MAX.

(** ** Text: character classes and the regular expression of [GetAppUid] *)

Definition text := list ascii.

Definition chars (s : string) : text := list_ascii_of_string s.

Definition code (c : ascii) : N := N_of_ascii c.

Definition in_range (lo hi : N) (c : ascii) : bool :=
  (lo <=? code c)%N && (code c <=? hi)%N.

(** [\d] *)
Definition is_digit (c : ascii) : bool := in_range 48 57 c.

(** [\w]: letters, digits and the underscore. *)
Definition is_word (c : ascii) : bool :=
  in_range 97 122 c || in_range 65 90 c || is_digit c || (code c =? 95)%N.

(** [\s]: space, and the control characters tab, line feed, vertical tab, form
    feed, carriage return. *)
Definition is_space (c : ascii) : bool :=
  (code c =? 32)%N || in_range 9 13 c.

(** The bracket expression [[\w\.]]. *)
Definition is_word_or_dot (c : ascii) : bool :=
  is_word c || (code c =? 46)%N.

Inductive atom :=
| Chr (c : ascii)
| Class (p : ascii -> bool).

Definition atom_ok (a : atom) (c : ascii) : bool :=
  match a with
  | Chr c' => Ascii.eqb c' c
  | Class p => p c
  end.

(** The fragment of ECMAScript regular expressions the file uses. *)
Inductive regex :=
| Eps
| One (a : atom)
| Plus (a : atom)
| Group (r : regex)
| Seq (r1 r2 : regex).

Fixpoint Lit (s : text) : regex :=
  match s with
  | [] => Eps
  | c :: s' => Seq (One (Chr c)) (Lit s')
  end.

(** [R"(package:([\w\.]+)\s+uid:(\d+))"] *)
Definition package_uid_re : regex :=
  Seq (Lit (chars "package:"))
   (Seq (Group (Plus (Class is_word_or_dot)))
    (Seq (Plus (Class is_space))
     (Seq (Lit (chars "uid:"))
          (Group (Plus (Class is_digit)))))).

(** A backtracking matcher.  [star a s] lists the inputs that can remain
    after [a*] has consumed a prefix of [s], the greedy choice first. *)
Fixpoint star (a : atom) (s : text) : list text :=
  match s with
  | c :: s' => if atom_ok a c then star a s' ++ [s] else [s]
  | [] => [[]]
  end.

Definition plus (a : atom) (s : text) : list text :=
  match s with
  | c :: s' => if atom_ok a c then star a s' else []
  | [] => []
  end.

(** [exec r caps s] lists, in the order a backtracking matcher explores them,
    the ways [r] matches a prefix of [s]: the sub-matches captured so far and
    the input left. *)
Fixpoint exec (r : regex) (caps : list text) (s : text) : list (list text * text) :=
  match r with
  | Eps => [(caps, s)]
  | One a =>
      match s with
      | c :: s' => if atom_ok a c then [(caps, s')] else []
      | [] => []
      end
  | Plus a => (fun s' => (caps, s')) <$> plus a s
  | Group r' =>
      (fun m : list text * text =>
         (m.1 ++ [take (length s - length m.2) s], m.2)) <$> exec r' caps s
  | Seq r1 r2 =>
      exec r1 caps s ≫= (fun m : list text * text => exec r2 m.1 m.2)
  end.

(** A [std::smatch]: [str 0] is the whole match, [str i] the i-th group. *)
Definition smatch := list text.

Definition str (m : smatch) (i : nat) : text := nth i m [].

(** The match anchored at the start of [s], and the input after it. *)
Definition match_here (r : regex) (s : text) : option (smatch * text) :=
  (fun m : list text * text => (take (length s - length m.2) s :: m.1, m.2))
    <$> head (exec r [] s).

(** [std::regex_search]: the leftmost position at which the expression
    matches. *)
Fixpoint regex_search (r : regex) (s : text) : option (smatch * text) :=
  match match_here r s with
  | Some m => Some m
  | None =>
      match s with
      | [] => None
      | _ :: s' => regex_search r s'
      end
  end.

(** The sequence a [std::sregex_iterator] walks through: each search starts
    where the previous match ended. *)
Fixpoint regex_iterate (fuel : nat) (r : regex) (s : text) : list smatch :=
  match fuel with
  | O => []
  | S fuel' =>
      match regex_search r s with
      | None => []
      | Some (m, rest) => m :: regex_iterate fuel' r rest
      end
  end.

Definition sregex_iterator (r : regex) (s : text) : list smatch :=
  regex_iterate (S (length s)) r s.

(** ** [android::base::ParseUint] on decimal text

    Only the behaviour on what the callers pass is modelled: text that is not
    a non-empty run of decimal digits is rejected, and so is a value above
    [max]. *)
Definition digit_value (c : ascii) : Z := Z.of_N (code c) - 48.

Definition decimal_value (s : text) : Z :=
  fold_left (fun acc c => 10 * acc + digit_value c) s 0.

Definition ParseUint (s : text) (max : Z) : option Z :=
  match s with
  | [] => None
  | _ =>
      if forallb is_digit s && (decimal_value s <=? max)
      then Some (decimal_value s) else None
  end.

(** The loop of [GetAppUid] (lines 132-142) over the matches. *)
Fixpoint find_uid (app_name_ : string) (ms : list smatch) : option Z :=
  match ms with
  | [] => None
  | m :: ms' =>
      let name := string_of_list_ascii (str m 1) in
      match ParseUint (str m 2) UINT32_MAX with
      | None => find_uid app_name_ ms'
      | Some uid =>
          if String.eqb name app_name_ then Some uid else find_uid app_name_ ms'
      end
  end.

(** Lines 129-144: what [GetAppUid] returns once the listing has been read. *)
Definition uid_in_listing (content : text) (app_name_ : string) : option Z :=
  find_uid app_name_ (sregex_iterator package_uid_re content).

(** ** The world the handlers act on *)

Definition byte := Byte.byte.

(** What a name in the recording data directory refers to. *)
Inductive node :=
| RegularFile (content : list byte)
| NotRegular.

Definition directory := list (string * node).

(** The archive stream behind a [ZipWriter]: the entries already closed, in
    the order they were written, and the entry being written. *)
Record ZipWriter := {
  entries : list (string * list byte);
  current : option (string * list byte);
  finished : bool
}.

Definition new_ZipWriter : ZipWriter :=
  {| entries := []; current := None; finished := false |}.

(** Calls to collaborators, in the order they are made. *)
Inductive Event :=
| PmListPackages
| SetProperty (key value : string)
| CheckPerfEventLimit
| WriteTracepointsToFile (path : string)
| RunInAppContext (app_name cmd : string) (args : list string)
    (workload_args_size : Z) (output_filepath : string)
    (need_tracepoint_events : bool)
| RunCmd (argv : list string)
| StopSignalThread (fd : Z).

Record World := {
  properties : gmap string string;
  data_dir : option directory;
  zip : ZipWriter;
  calls : list Event
}.

Definition log (e : Event) (w : World) : World :=
  {| properties := properties w; data_dir := data_dir w; zip := zip w;
     calls := calls w ++ [e] |}.

Definition set_properties (p : gmap string string) (w : World) : World :=
  {| properties := p; data_dir := data_dir w; zip := zip w; calls := calls w |}.

Definition set_data_dir (d : option directory) (w : World) : World :=
  {| properties := properties w; data_dir := d; zip := zip w; calls := calls w |}.

Definition set_zip (z : ZipWriter) (w : World) : World :=
  {| properties := properties w; data_dir := data_dir w; zip := z;
     calls := calls w |}.

(** What the collaborators answer.  Every answer may depend on the world at
    the time of the call, hence on everything that happened before.
    [stop_signal_ready w fd] says that a [read] of one byte on the descriptor
    [fd] has returned by the time the world is [w], be it with a byte, at the
    end of the file or with an error. *)
Record Env := {
  GetAndroidVersion : Z;
  time_now : Z;
  pm_list_packages : World -> option text;
  SetProperty_ok : World -> string -> string -> bool;
  CheckPerfEventLimit_ok : World -> bool;
  WriteTracepointsToFile_ok : World -> string -> bool;
  RunInAppContext_ok : World -> string -> list string -> bool;
  RunCmd_ok : World -> list string -> bool;
  Fdopen_ok : World -> Z -> bool;
  OpenReadOnly_ok : World -> string -> bool;
  read_result : World -> string -> nat -> Z;
  StartEntry_result : World -> string -> Z;
  WriteBytes_result : World -> list byte -> Z;
  FinishEntry_result : World -> Z;
  Finish_result : World -> Z;
  stop_signal_ready : World -> Z -> bool
}.

(** A handler either returns, or the process is stopped by a failed [CHECK],
    or it is ended by the [exit] of the stop-signal thread; [OutOfFuel] marks
    a loop of the model cut short, which the termination lemmas below
    exclude. *)
Inductive outcome (A : Type) :=
| Done (a : A)
| CheckFailed
| Exited (status : Z)
| OutOfFuel.
Arguments Done {A} a.
Arguments CheckFailed {A}.
Arguments Exited {A} status.
Arguments OutOfFuel {A}.

Definition M (A : Type) : Type := World -> outcome A * World.

Definition ret {A} (a : A) : M A := fun w => (Done a, w).

Definition bind {A B} (m : M A) (k : A -> M B) : M B :=
  fun w =>
    match m w with
    | (Done a, w') => k a w'
    | (CheckFailed, w') => (CheckFailed, w')
    | (Exited status, w') => (Exited status, w')
    | (OutOfFuel, w') => (OutOfFuel, w')
    end.

Notation "'let*' x := m 'in' k" := (bind m (fun x => k))
  (at level 10, x name, m at level 100, k at level 200).

Definition lift {A} (o : outcome A) : M A := fun w => (o, w).

(** *** Collaborators as actions *)

Section Collaborators.
Variable env : Env.

(** [popen("pm list packages -U")] followed by [ReadFdToString]. *)
Definition run_pm_list_packages : M (option text) :=
  fun w => (Done (pm_list_packages env w), log PmListPackages w).

(** [android::base::SetProperty]: the store changes only when the call
    succeeds. *)
Definition do_SetProperty (key value : string) : M bool :=
  fun w =>
    let w' := log (SetProperty key value) w in
    if SetProperty_ok env w key value
    then (Done true, set_properties (<[key := value]> (properties w)) w')
    else (Done false, w').

Definition do_CheckPerfEventLimit : M bool :=
  fun w => (Done (CheckPerfEventLimit_ok env w), log CheckPerfEventLimit w).

Definition do_WriteTracepointsToFile (path : string) : M bool :=
  fun w => (Done (WriteTracepointsToFile_ok env w path),
            log (WriteTracepointsToFile path) w).

Definition do_RunInAppContext (app_name cmd : string) (args : list string)
    (workload_args_size : Z) (output_filepath : string)
    (need_tracepoint_events : bool) : M bool :=
  fun w => (Done (RunInAppContext_ok env w app_name args),
            log (RunInAppContext app_name cmd args workload_args_size
                   output_filepath need_tracepoint_events) w).
End Collaborators.

(** ** Command-line options *)

Local Open Scope string_scope.
Local Open Scope Z_scope.

Inductive OptionValueType := NONE | STRING | UINT.
Inductive OptionType := SINGLE.
Inductive AppRunnerType := NOT_ALLOWED | ALLOWED | CHECK_FD | CHECK_PATH.

Record OptionFormat := {
  value_type : OptionValueType;
  type : OptionType;
  app_runner_type : AppRunnerType
}.

Inductive OptionValue :=
| NoValue
| StrValue (s : string)
| UintValue (n : Z).

Definition str_value (v : OptionValue) : string :=
  match v with StrValue s => s | _ => "" end.

Definition uint_value (v : OptionValue) : Z :=
  match v with UintValue n => n | _ => 0 end.

Abbreviation OptionFormatMap := (gmap string OptionFormat).
Abbreviation OptionValueMap := (gmap string OptionValue).

(** Modelled from the spec: [Command::PreprocessOptions] (command.cpp) is not
    part of this file.  Section 4.1: the tokens are checked against the table,
    left to right; a token that is not a recognised flag, a value of the wrong
    type (or no value), and a second occurrence of a single-valued flag are
    parse errors; otherwise the result maps each flag given to its value.  No
    flag of the two tables is an ordered one, so the vector of ordered options
    comes back empty. *)
Fixpoint preprocess (option_formats : OptionFormatMap) (args : list string)
    (values : OptionValueMap) : option OptionValueMap :=
  match args with
  | [] => Some values
  | name :: rest =>
      match option_formats !! name, values !! name with
      | None, _ => None
      | Some _, Some _ => None
      | Some format, None =>
          match value_type format with
          | NONE => preprocess option_formats rest (<[name := NoValue]> values)
          | STRING =>
              match rest with
              | [] => None
              | v :: rest' =>
                  preprocess option_formats rest' (<[name := StrValue v]> values)
              end
          | UINT =>
              match rest with
              | [] => None
              | v :: rest' =>
                  match ParseUint (chars v) UINT64_MAX with
                  | None => None
                  | Some n =>
                      preprocess option_formats rest'
                        (<[name := UintValue n]> values)
                  end
              end
          end
      end
  end.

Definition PreprocessOptions (args : list string)
    (option_formats : OptionFormatMap)
    : option (OptionValueMap * list (string * OptionValue)) :=
  (fun values => (values, [])) <$> preprocess option_formats args ∅.

(** Modelled from the spec: the accessors of [OptionValueMap] (command.h).
    Section 4.1: a pull returns the value stored under the name, if any, and
    removes the entry. *)
Definition PullValue (options : OptionValueMap) (name : string)
    : option OptionValue * OptionValueMap :=
  (options !! name, delete name options).

Definition PullBoolValue (options : OptionValueMap) (name : string)
    : bool * OptionValueMap :=
  (bool_decide (is_Some (options !! name)), delete name options).

(** [PullUintValue(name, &value)]: [value] is left alone when the flag was not
    given; the default bounds are those of [uint64_t]. *)
Definition PullUintValue (options : OptionValueMap) (name : string) (value : Z)
    : bool * Z * OptionValueMap :=
  match options !! name with
  | Some v =>
      if (uint_value v <? 0) || (UINT64_MAX <? uint_value v)
      then (false, value, delete name options)
      else (true, uint_value v, delete name options)
  | None => (true, value, delete name options)
  end.

(** ** [api-prepare] *)

Module PrepareCommand.

Record t := { app_name_ : string; days_ : Z }.

Definition new : t := {| app_name_ := ""; days_ := 0 |}.

Definition option_formats : OptionFormatMap :=
  <["--app" := {| value_type := STRING; type := SINGLE;
                   app_runner_type := NOT_ALLOWED |}]>
  (<["--days" := {| value_type := UINT; type := SINGLE;
                    app_runner_type := NOT_ALLOWED |}]> ∅).

Definition ParseOptions (self : t) (args : list string) : bool * t :=
  match PreprocessOptions args option_formats with
  | None => (false, self)
  | Some (options, ordered_options) =>
      let '(value, options) := PullValue options "--app" in
      let self :=
        match value with
        | Some v => {| app_name_ := str_value v; days_ := days_ self |}
        | None => self
        end in
      let '(ok, days, options) := PullUintValue options "--days" (days_ self) in
      let self := {| app_name_ := app_name_ self; days_ := days |} in
      if negb ok then (false, self) else (true, self)
  end.

Section WithEnv.
Variable env : Env.

Definition GetAppUid (self : t) : M (option Z) :=
  let* content := run_pm_list_packages env in
  match content with
  | None => ret None
  | Some content => ret (uid_in_listing content (app_name_ self))
  end.

(** Lines 72-96.  [true] stands for reaching line 98, [false] for one of
    the [return false] statements. *)
Definition enable_profiling (self : t) : M bool :=
  if (13 <=? GetAndroidVersion env) && negb (String.eqb (app_name_ self) "")
     && negb (days_ self =? 0)
  then
    let expiration_time := expiration_time (days_ self) (time_now env) in
    let* uid := GetAppUid self in
    match uid with
    | None => ret false
    | Some uid =>
        let* uid_set :=
          do_SetProperty env "persist.simpleperf.profile_app_uid"
            (pretty uid) in
        if negb uid_set then ret false
        else
          let* expiration_set :=
            do_SetProperty env
              "persist.simpleperf.profile_app_expiration_time"
              (pretty expiration_time) in
          if negb expiration_set then ret false else ret true
    end
  else
    let* ok := do_CheckPerfEventLimit env in
    if negb ok then ret false else ret true.

Definition Run (self : t) (args : list string) : M bool :=
  let '(parsed, self) := ParseOptions self args in
  if negb parsed then ret false
  else
    let* enabled := enable_profiling self in
    if negb enabled then ret false
    else do_WriteTracepointsToFile env "/data/local/tmp/tracepoint_events".
End WithEnv.

End PrepareCommand.

(** ** The recording data directory *)

Definition SIMPLEPERF_DATA_DIR : string := "simpleperf_data".

Fixpoint strip_prefix (p s : string) : option string :=
  match p, s with
  | EmptyString, _ => Some s
  | String a p', String b s' => if Ascii.eqb a b then strip_prefix p' s' else None
  | String _ _, EmptyString => None
  end.

Definition lookup_node (d : directory) (name : string) : option node :=
  snd <$> List.find (fun e : string * node => String.eqb e.1 name) d.

(** What a path names: only the data directory is populated. *)
Definition stat (w : World) (path : string) : option node :=
  match strip_prefix (SIMPLEPERF_DATA_DIR +:+ "/") path with
  | Some name => data_dir w ≫= (fun d => lookup_node d name)
  | None => None
  end.

(** Modelled from the spec: [GetEntriesInDir] (utils.cpp) is not part of this
    file.  Section 4.3 has the handler walk the entries of the directory; a
    directory that cannot be opened has none. *)
Definition GetEntriesInDir (w : World) (dirpath : string) : list string :=
  if String.eqb dirpath SIMPLEPERF_DATA_DIR
  then match data_dir w with Some d => d.*1 | None => [] end
  else [].

(** Modelled from the spec: [IsRegularFile] (utils.cpp) is not part of this
    file.  Section 4.3: the test that an entry is a regular file, made again
    for each entry. *)
Definition IsRegularFile (w : World) (path : string) : bool :=
  match stat w path with
  | Some (RegularFile _) => true
  | _ => false
  end.

Definition buffer_size : Z := 64 * 1024.

(** Modelled from the spec: [Workload::RunCmd] (workload.cpp) is not part of
    this file.  Section 4.3: the command removes the data directory
    recursively; here, what a command has done once it exits with status
    zero. *)
Definition command_effect (argv : list string) (w : World) : World :=
  match argv with
  | ["rm"; "-rf"; dir] =>
      if String.eqb dir SIMPLEPERF_DATA_DIR then set_data_dir None w else w
  | _ => w
  end.

(** [static_cast<int>] of an [uint64_t]. *)
Definition static_cast_int (x : Z) : Z := (x + 2 ^ 31) mod 2 ^ 32 - 2 ^ 31.

(** Modelled from the spec: the table returned by
    [GetApiCollectCmdOptionFormats] (cmd_api_impl.h) is not part of this file.
    Section 6 lists the flags and their value types; the last column is read
    by the app runner only. *)
Definition GetApiCollectCmdOptionFormats : OptionFormatMap :=
  <["--app" := {| value_type := STRING; type := SINGLE;
                   app_runner_type := NOT_ALLOWED |}]>
  (<["--in-app" := {| value_type := NONE; type := SINGLE;
                      app_runner_type := ALLOWED |}]>
  (<["-o" := {| value_type := STRING; type := SINGLE;
                app_runner_type := NOT_ALLOWED |}]>
  (<["--out-fd" := {| value_type := UINT; type := SINGLE;
                      app_runner_type := CHECK_FD |}]>
  (<["--stop-signal-fd" := {| value_type := UINT; type := SINGLE;
                             app_runner_type := CHECK_FD |}]> ∅)))).

Section Files.
Variable env : Env.

(** [Workload::RunCmd]: the command acts on the world when it succeeds. *)
Definition do_RunCmd (argv : list string) : M bool :=
  fun w =>
    let w' := log (RunCmd argv) w in
    if RunCmd_ok env w argv then (Done true, command_effect argv w')
    else (Done false, w').

(** Modelled from the spec: [FileHelper::OpenReadOnly] (utils.cpp) is not
    part of this file.  Section 4.3: opening a file of the directory may fail;
    otherwise the descriptor gives its bytes.  [None] stands for the
    descriptor -1. *)
Definition OpenReadOnly (path : string) : M (option (list byte)) :=
  fun w =>
    match stat w path with
    | Some (RegularFile content) =>
        if OpenReadOnly_ok env w path then (Done (Some content), w)
        else (Done None, w)
    | _ => (Done None, w)
    end.

(** [TEMP_FAILURE_RETRY(read(fd, buffer, size))] with [remaining] the bytes
    between the file offset [pos] and the end of the file: a negative
    result is an error, 0 is returned at the end of the file only, and
    otherwise the kernel delivers between 1 and [size] of the bytes left,
    as many as the environment says. *)
Definition read (w : World) (path : string) (pos : nat)
    (remaining : list byte) (size : Z) : Z :=
  let r := read_result env w path pos in
  if r <? 0 then -1
  else
    match remaining with
    | [] => 0
    | _ => Z.max 1 (Z.min r (Z.min size (Z.of_nat (length remaining))))
    end.

(** Modelled from the spec: [ZipWriter] (libziparchive) is outside the
    repository.  Sections 3 and 6: start-entry, write-bytes, finish-entry
    and finish-stream each return a result code, 0 for success; the archive
    is the sequence of (name, bytes) pairs so written. *)
Definition StartEntry (name : string) : M Z :=
  fun w =>
    let rc := StartEntry_result env w name in
    if rc =? 0
    then (Done rc, set_zip {| entries := entries (zip w);
                              current := Some (name, []);
                              finished := finished (zip w) |} w)
    else (Done rc, w).

Definition WriteBytes (data : list byte) : M Z :=
  fun w =>
    let rc := WriteBytes_result env w data in
    if rc =? 0
    then (Done rc,
          set_zip {| entries := entries (zip w);
                     current := (fun e : string * list byte => (e.1, (e.2 ++ data)%list))
                                  <$> current (zip w);
                     finished := finished (zip w) |} w)
    else (Done rc, w).

Definition FinishEntry : M Z :=
  fun w =>
    let rc := FinishEntry_result env w in
    if rc =? 0
    then (Done rc,
          set_zip {| entries := (entries (zip w) ++ option_list (current (zip w)))%list;
                     current := None;
                     finished := finished (zip w) |} w)
    else (Done rc, w).

Definition Finish : M Z :=
  fun w =>
    let rc := Finish_result env w in
    if rc =? 0
    then (Done rc, set_zip {| entries := entries (zip w);
                              current := current (zip w);
                              finished := true |} w)
    else (Done rc, w).
End Files.

(** ** [api-collect] *)

Module CollectCommand.

Record t := {
  app_name_ : string;
  output_filepath_ : string;
  in_app_context_ : bool;
  out_fd_ : Z;
  stop_signal_fd_ : Z
}.

Definition new : t :=
  {| app_name_ := ""; output_filepath_ := "simpleperf_data.zip";
     in_app_context_ := false; out_fd_ := -1; stop_signal_fd_ := -1 |}.

Definition Name : string := "api-collect".

Definition ParseOptions (self : t) (args : list string) : outcome (bool * t) :=
  match PreprocessOptions args GetApiCollectCmdOptionFormats with
  | None => Done (false, self)
  | Some (options, ordered_options) =>
      let '(app, options) := PullValue options "--app" in
      let '(in_app, options) := PullBoolValue options "--in-app" in
      let '(o, options) := PullValue options "-o" in
      let '(out_fd, options) := PullValue options "--out-fd" in
      let '(stop_signal_fd, options) := PullValue options "--stop-signal-fd" in
      let self :=
        {| app_name_ := from_option str_value (app_name_ self) app;
           in_app_context_ := in_app;
           output_filepath_ := from_option str_value (output_filepath_ self) o;
           out_fd_ :=
             from_option (fun v => static_cast_int (uint_value v))
               (out_fd_ self) out_fd;
           stop_signal_fd_ :=
             from_option (fun v => static_cast_int (uint_value v))
               (stop_signal_fd_ self) stop_signal_fd |} in
      if negb (bool_decide (options = ∅)) then CheckFailed
      else if negb (bool_decide (ordered_options = [])) then CheckFailed
      else if negb (in_app_context_ self) && String.eqb (app_name_ self) ""
      then Done (false, self)
      else Done (true, self)
  end.

Section WithEnv.
Variable env : Env.

(** Lines 227-231, the body of the detached thread: one [read] on [fd],
    then [exit(1)] whatever the read gave.  The thread runs beside the
    handler; the model looks at it at the sequence points of [Run].  On a
    negative descriptor (the value of a [unique_fd] that was never set) the
    read fails without blocking, so the exit is due at the first look;
    otherwise it is due once [stop_signal_ready] says that the read has
    returned. *)
Definition stop_signal_thread (fd : Z) : M unit :=
  fun w =>
    if (fd <? 0) || stop_signal_ready env w fd then (Exited 1, w)
    else (Done tt, w).

(** Lines 225-233: the descriptor is released to the thread, and the thread
    is started. *)
Definition HandleStopSignal (self : t) : M unit :=
  let fd := stop_signal_fd_ self in
  fun w => stop_signal_thread fd (log (StopSignalThread fd) w).

(** Lines 261-276.  [true] stands for the [break], [false] for a
    [return false]. *)
Fixpoint read_loop (fuel : nat) (path : string) (pos : nat)
    (remaining : list byte) : M bool :=
  match fuel with
  | O => lift OutOfFuel
  | S fuel' =>
      fun w =>
        let nread := read env w path pos remaining buffer_size in
        if nread <? 0 then (Done false, w)
        else if nread =? 0 then (Done true, w)
        else
          (let* result := WriteBytes env (take (Z.to_nat nread) remaining) in
           if negb (result =? 0) then ret false
           else read_loop fuel' path (pos + Z.to_nat nread)
                  (drop (Z.to_nat nread) remaining)) w
  end.

(** The body of the [for] loop, lines 245-282.  [true] stands for going
    on with the next entry, [false] for a [return false]. *)
Definition collect_entry (name : string) : M bool :=
  let path := SIMPLEPERF_DATA_DIR +:+ "/" +:+ name in
  fun w =>
    if String.prefix "TemporaryFile-" name || negb (IsRegularFile w path)
    then (Done true, w)
    else
      (let* result := StartEntry env name in
       if negb (result =? 0) then ret false
       else
         let* in_fd := OpenReadOnly env path in
         match in_fd with
         | None => ret false
         | Some content =>
             let* copied := read_loop (S (length content)) path 0 content in
             if negb copied then ret false
             else
               let* result := FinishEntry env in
               if negb (result =? 0) then ret false else ret true
         end) w.

Fixpoint collect_entries (names : list string) : M bool :=
  match names with
  | [] => ret true
  | name :: names' =>
      let* ok := collect_entry name in
      if negb ok then ret false else collect_entries names'
  end.

Definition CollectRecordingData (self : t) : M bool :=
  fun w =>
    if negb (Fdopen_ok env w (out_fd_ self)) then (Done false, w)
    else
      (let* ok := collect_entries (GetEntriesInDir w SIMPLEPERF_DATA_DIR) in
       if negb ok then ret false
       else
         let* result := Finish env in
         if negb (result =? 0) then ret false else ret true)
        (set_zip new_ZipWriter w).

Definition RemoveRecordingData : M bool :=
  do_RunCmd env ["rm"; "-rf"; SIMPLEPERF_DATA_DIR].

(** Lines 180-189.  In the inner mode the thread started by
    [HandleStopSignal] lives until the handler returns: it is looked at again
    after each of the two calls, so that [Run] returns only if the [exit] of
    the thread was not due by then. *)
Definition Run (self : t) (args : list string) : M bool :=
  let* parsed := lift (ParseOptions self args) in
  let '(ok, self) := parsed in
  if negb ok then ret false
  else if in_app_context_ self then
    let* _ := HandleStopSignal self in
    let* collected := CollectRecordingData self in
    let* _ := stop_signal_thread (stop_signal_fd_ self) in
    if negb collected then ret false
    else
      let* removed := RemoveRecordingData in
      let* _ := stop_signal_thread (stop_signal_fd_ self) in
      ret removed
  else
    do_RunInAppContext env (app_name_ self) Name args 0
      (output_filepath_ self) false.
End WithEnv.

End CollectCommand.

(** ** A scanner for the lines of the package listing

    The expression of [GetAppUid] never needs to backtrack: the classes that
    follow one another are disjoint.  [scan_here] reads the same language
    left to right in one pass; the theorems relate it to [exec]. *)

(** [strip l s] removes the literal [l] from the front of [s]. *)
Fixpoint strip (l s : text) : option text :=
  match l, s with
  | [], _ => Some s
  | a :: l', b :: s' => if Ascii.eqb a b then strip l' s' else None
  | _ :: _, [] => None
  end.

(** [span p s] splits [s] after its longest prefix of characters in [p]. *)
Fixpoint span (p : ascii -> bool) (s : text) : text * text :=
  match s with
  | c :: s' =>
      if p c then let '(a, b) := span p s' in (c :: a, b) else ([], s)
  | [] => ([], [])
  end.

Definition nonempty (s : text) : bool :=
  match s with [] => false | _ => true end.

(** The package name, the uid digits and the input left, when [s] starts with
    a match. *)
Definition scan_here (s : text) : option (text * text * text) :=
  s1 ← strip (chars "package:") s;
  let '(name, s2) := span is_word_or_dot s1 in
  let '(ws, s3) := span is_space s2 in
  s4 ← strip (chars "uid:") s3;
  let '(uid, s5) := span is_digit s4 in
  if nonempty name && nonempty ws && nonempty uid
  then Some (name, uid, s5) else None.

(** The first character of [s], if any, is in [p]. *)
Definition starts_with (p : ascii -> bool) (s : text) : bool :=
  match s with c :: _ => p c | [] => false end.

(** The line format at the start of [s]: [package:], a name of word
    characters and dots, white space, [uid:], digits, and then no digit. *)
Definition line_at (s name ws uid rest : text) : Prop :=
  s = (chars "package:" ++ name ++ ws ++ chars "uid:" ++ uid ++ rest)%list
  /\ name <> [] /\ forallb is_word_or_dot name = true
  /\ ws <> [] /\ forallb is_space ws = true
  /\ uid <> [] /\ forallb is_digit uid = true
  /\ starts_with is_digit rest = false.

(** The line format somewhere in [s]. *)
Definition occurs_in (s name uid : text) : Prop :=
  exists before t ws rest,
    s = (before ++ t)%list /\ line_at t name ws uid rest.

(** Every name and uid that [scan_here] reads at some position of [s]. *)
Fixpoint scan_all (s : text) : list (text * text) :=
  match scan_here s with
  | Some (name, uid, _) => [(name, uid)]
  | None => []
  end ++ match s with
         | [] => []
         | _ :: s' => scan_all s'
         end.

(** The line feed that ends a line. *)
Definition newline : ascii := "010"%char.

(** [s] is a run of complete lines: empty, or ended by a line feed. *)
Definition whole_lines (s : text) : Prop :=
  s = [] \/ exists s', s = (s' ++ [newline])%list.

(** ** Vocabulary of the statements about the archive *)

(** The names of the entries present in the stream, the one being written
    included. *)
Definition archive_names (z : ZipWriter) : list string :=
  ((entries z).*1 ++ (option_list (current z)).*1)%list.

(** The bytes the loop of [CollectRecordingData] is to archive under [name],
    if any: the name must not carry the temporary prefix and must be that of a
    regular file. *)
Definition eligible (w : World) (name : string) : option (list byte) :=
  if String.prefix "TemporaryFile-" name then None
  else
    match stat w (SIMPLEPERF_DATA_DIR +:+ "/" +:+ name) with
    | Some (RegularFile content) => Some content
    | _ => None
    end.

(** What an entry of the directory contributes to the archive. *)
Definition archived (e : string * node) : option (string * list byte) :=
  if String.prefix "TemporaryFile-" e.1 then None
  else
    match e.2 with
    | RegularFile content => Some (e.1, content)
    | NotRegular => None
    end.

(** Only the zip stream differs between two worlds. *)
Definition frame (w w' : World) : Prop :=
  properties w' = properties w /\ data_dir w' = data_dir w
  /\ calls w' = calls w.

(** ** Sample environments and worlds *)

(** A host on which every collaborator succeeds, but for the two switches:
    [props_ok] decides which property can be written and [rm_ok] whether
    commands run to a zero exit status.  Reads deliver two bytes at a time. *)
Definition sample_env (version : Z) (listing : option text)
    (props_ok : string -> bool) (rm_ok : bool) : Env :=
  {| GetAndroidVersion := version;
     time_now := 1700000000;
     pm_list_packages := fun _ => listing;
     SetProperty_ok := fun _ key _ => props_ok key;
     CheckPerfEventLimit_ok := fun _ => true;
     WriteTracepointsToFile_ok := fun _ _ => true;
     RunInAppContext_ok := fun _ _ _ => true;
     RunCmd_ok := fun _ _ => rm_ok;
     Fdopen_ok := fun _ _ => true;
     OpenReadOnly_ok := fun _ _ => true;
     read_result := fun _ _ _ => 2;
     StartEntry_result := fun _ _ => 0;
     WriteBytes_result := fun _ _ => 0;
     FinishEntry_result := fun _ => 0;
     Finish_result := fun _ => 0;
     stop_signal_ready := fun _ _ => false |}.

(** A host on which the zip writer accepts the first bytes of an entry and
    reports an error for any further write. *)
Definition short_write_env : Env :=
  {| GetAndroidVersion := 13;
     time_now := 1700000000;
     pm_list_packages := fun _ => None;
     SetProperty_ok := fun _ _ _ => true;
     CheckPerfEventLimit_ok := fun _ => true;
     WriteTracepointsToFile_ok := fun _ _ => true;
     RunInAppContext_ok := fun _ _ _ => true;
     RunCmd_ok := fun _ _ => true;
     Fdopen_ok := fun _ _ => true;
     OpenReadOnly_ok := fun _ _ => true;
     read_result := fun _ _ _ => 2;
     StartEntry_result := fun _ _ => 0;
     WriteBytes_result := fun w _ =>
       match current (zip w) with
       | Some (_, _ :: _) => -2
       | _ => 0
       end;
     FinishEntry_result := fun _ => 0;
     Finish_result := fun _ => 0;
     stop_signal_ready := fun _ _ => false |}.

Definition sample_listing : text :=
  chars "package:com.android.shell uid:2000
package:com.example.app uid:10123
".

Definition sample_dir : directory :=
  [("perf.data", RegularFile (list_byte_of_string "abc"));
   ("TemporaryFile-42", RegularFile (list_byte_of_string "x"));
   ("binary_cache", NotRegular)].

Definition sample_world : World :=
  {| properties := ∅; data_dir := Some sample_dir; zip := new_ZipWriter;
     calls := [] |}.

Definition sample_prepare_args : list string :=
  ["--app"; "com.example.app"; "--days"; "3"].

(** * Theorems *)

(** ** Expiration arithmetic *)

Lemma wrap_uint64_fits (x : Z) : fits_uint64 x = true -> wrap_uint64 x = x.
Proof.
  unfold fits_uint64, wrap_uint64, UINT64_MAX. intros H.
  apply andb_true_iff in H as [H1 H2].
  apply Z.leb_le in H1, H2. apply Z.mod_small. lia.
Qed.

Lemma expiration_time_refines_spec (days now : Z) :
  expiration_time days now = expiration_spec days now.
Proof.
  unfold expiration_time, expiration_spec, builtin_mul_overflow,
    builtin_add_overflow.
  replace (24 * 3600) with 86400 by reflexivity.
  destruct (fits_uint64 (days * 86400)) eqn:Hmul; simpl; [|reflexivity].
  rewrite (wrap_uint64_fits _ Hmul).
  destruct (fits_uint64 (now + days * 86400)) eqn:Hadd; simpl; [|reflexivity].
  apply wrap_uint64_fits, Hadd.
Qed.

(** C2.  For every day count [d] and time [t], the expiration computed by
    lines 74-79 is [t + d * 86400] when the product [d * 86400] and the sum
    are both within the unsigned 64-bit range, and [UINT64_MAX] in every other
    case: an overflow of the multiplication or of the addition never yields a
    wrapped value. *)
Theorem expiration_time_saturates (d t : Z) :
  expiration_time d t =
    if (0 <=? d * 86400) && (d * 86400 <=? UINT64_MAX)
       && ((0 <=? t + d * 86400) && (t + d * 86400 <=? UINT64_MAX))
    then t + d * 86400
    else UINT64_MAX.
Proof. apply expiration_time_refines_spec. Qed.

Example expiration_time_three_days :
  expiration_time 3 1700000000 = 1700259200.
Proof. reflexivity. Qed.

Example expiration_time_mul_overflow :
  expiration_time 213503982334602 0 = UINT64_MAX.
Proof. reflexivity. Qed.

Example expiration_time_add_overflow :
  expiration_time 213503982334601 1700000000 = UINT64_MAX.
Proof. reflexivity. Qed.

Example expiration_time_negative_clock :
  expiration_time 1 (-86401) = UINT64_MAX.
Proof. reflexivity. Qed.

(** ** [api-prepare] *)

Lemma durable_condition env (self : PrepareCommand.t) :
  13 <= GetAndroidVersion env ->
  PrepareCommand.app_name_ self <> "" ->
  PrepareCommand.days_ self <> 0 ->
  (13 <=? GetAndroidVersion env)
    && negb (String.eqb (PrepareCommand.app_name_ self) "")
    && negb (PrepareCommand.days_ self =? 0) = true.
Proof.
  intros Hv Ha Hd.
  apply Z.leb_le in Hv. apply String.eqb_neq in Ha. apply Z.eqb_neq in Hd.
  rewrite Hv, Ha, Hd. reflexivity.
Qed.

Ltac trace_eq :=
  cbn [fst snd calls properties data_dir zip log set_properties set_zip
       set_data_dir];
  rewrite <- ?app_assoc; auto.

(** C8.  In the durable-grant branch, once the uid is resolved, the uid
    property is written first and the expiration property second; when the
    first write fails the second is not attempted, and when either fails the
    handler returns failure and the tracepoint file is not written. *)
Theorem prepare_property_writes_in_order env self args self' w content uid :
  PrepareCommand.ParseOptions self args = (true, self') ->
  13 <= GetAndroidVersion env ->
  PrepareCommand.app_name_ self' <> "" ->
  PrepareCommand.days_ self' <> 0 ->
  pm_list_packages env w = Some content ->
  uid_in_listing content (PrepareCommand.app_name_ self') = Some uid ->
  let uid_key := "persist.simpleperf.profile_app_uid" in
  let exp_key := "persist.simpleperf.profile_app_expiration_time" in
  let exp :=
    pretty (expiration_time (PrepareCommand.days_ self') (time_now env)) in
  let w1 := log PmListPackages w in
  let w2 := set_properties (<[uid_key := pretty uid]> (properties w))
              (log (SetProperty uid_key (pretty uid)) w1) in
  let r := PrepareCommand.Run env self args w in
  match SetProperty_ok env w1 uid_key (pretty uid),
        SetProperty_ok env w2 exp_key exp with
  | false, _ =>
      fst r = Done false /\
      calls (snd r) =
        (calls w ++ [PmListPackages; SetProperty uid_key (pretty uid)])%list
  | true, false =>
      fst r = Done false /\
      calls (snd r) =
        (calls w ++ [PmListPackages; SetProperty uid_key (pretty uid);
                     SetProperty exp_key exp])%list
  | true, true =>
      calls (snd r) =
        (calls w ++ [PmListPackages; SetProperty uid_key (pretty uid);
                     SetProperty exp_key exp;
                     WriteTracepointsToFile "/data/local/tmp/tracepoint_events"])%list
  end.
Proof.
  intros Hparse Hv Ha Hd Hpm Huid uid_key exp_key exp w1 w2 r.
  subst r. unfold PrepareCommand.Run. rewrite Hparse.
  unfold PrepareCommand.enable_profiling.
  rewrite (durable_condition _ _ Hv Ha Hd).
  cbv [negb bind PrepareCommand.GetAppUid
       run_pm_list_packages ret do_SetProperty do_WriteTracepointsToFile].
  rewrite Hpm, Huid.
  fold uid_key exp_key exp w1.
  destruct (SetProperty_ok env w1 uid_key (pretty uid)).
  - change (properties w1) with (properties w). fold w2.
    destruct (SetProperty_ok env w2 exp_key exp); subst w2 w1; trace_eq.
  - subst w1. trace_eq.
Qed.

(** C10.  In the durable-grant branch the package listing is queried before
    anything else is called, hence before any property write; when no uid is
    resolved the handler returns failure having made that one call, and the
    property store is the one it started with. *)
Theorem prepare_uid_resolution_first env self args self' w :
  PrepareCommand.ParseOptions self args = (true, self') ->
  13 <= GetAndroidVersion env ->
  PrepareCommand.app_name_ self' <> "" ->
  PrepareCommand.days_ self' <> 0 ->
  let r := PrepareCommand.Run env self args w in
  (exists later, calls (snd r) = (calls w ++ PmListPackages :: later)%list) /\
  (pm_list_packages env w
     ≫= (fun content => uid_in_listing content (PrepareCommand.app_name_ self'))
   = None ->
   fst r = Done false /\
   properties (snd r) = properties w /\
   calls (snd r) = (calls w ++ [PmListPackages])%list).
Proof.
  intros Hparse Hv Ha Hd r.
  subst r. unfold PrepareCommand.Run. rewrite Hparse.
  unfold PrepareCommand.enable_profiling.
  rewrite (durable_condition _ _ Hv Ha Hd).
  cbv [negb bind PrepareCommand.GetAppUid
       run_pm_list_packages ret do_SetProperty do_WriteTracepointsToFile].
  destruct (pm_list_packages env w) as [content|]; cbn [mbind option_bind].
  - destruct (uid_in_listing content (PrepareCommand.app_name_ self'))
      as [uid|].
    + split; [|discriminate].
      destruct (SetProperty_ok env _ _ _); [destruct (SetProperty_ok env _ _ _)|];
        trace_eq; eexists; reflexivity.
    + split; [exists []; reflexivity|]. intros _. trace_eq.
  - split; [exists []; reflexivity|]. intros _. trace_eq.
Qed.

Lemma sample_prepare_args_parse :
  PrepareCommand.ParseOptions PrepareCommand.new sample_prepare_args
  = (true, {| PrepareCommand.app_name_ := "com.example.app";
              PrepareCommand.days_ := 3 |}).
Proof. vm_compute. reflexivity. Qed.

Lemma prepare_property_writes_in_order_witness :
  let env := sample_env 13 (Some sample_listing)
               (fun key => negb (String.eqb key
                  "persist.simpleperf.profile_app_expiration_time")) true in
  let self' := {| PrepareCommand.app_name_ := "com.example.app";
                  PrepareCommand.days_ := 3 |} in
  let r := PrepareCommand.Run env PrepareCommand.new sample_prepare_args
             sample_world in
  PrepareCommand.ParseOptions PrepareCommand.new sample_prepare_args
    = (true, self') /\
  13 <= GetAndroidVersion env /\
  PrepareCommand.app_name_ self' <> "" /\
  PrepareCommand.days_ self' <> 0 /\
  pm_list_packages env sample_world = Some sample_listing /\
  uid_in_listing sample_listing (PrepareCommand.app_name_ self') = Some 10123 /\
  fst r = Done false /\
  calls (snd r) =
    [PmListPackages;
     SetProperty "persist.simpleperf.profile_app_uid" "10123";
     SetProperty "persist.simpleperf.profile_app_expiration_time" "1700259200"].
Proof.
  intros env self' r.
  assert (PrepareCommand.ParseOptions PrepareCommand.new sample_prepare_args
          = (true, self')) as Hparse by (vm_compute; reflexivity).
  assert (13 <= GetAndroidVersion env) as Hv by discriminate.
  assert (PrepareCommand.app_name_ self' <> "") as Ha by discriminate.
  assert (PrepareCommand.days_ self' <> 0) as Hd by discriminate.
  assert (uid_in_listing sample_listing (PrepareCommand.app_name_ self')
          = Some 10123) as Huid by (vm_compute; reflexivity).
  do 4 (split; [assumption|]). split; [reflexivity|]. split; [assumption|].
  pose proof (prepare_property_writes_in_order env PrepareCommand.new
                sample_prepare_args self' sample_world sample_listing 10123
                Hparse Hv Ha Hd eq_refl Huid) as H.
  vm_compute in H. vm_compute. exact H.
Defined.

Lemma prepare_uid_resolution_first_witness :
  let env := sample_env 13 (Some sample_listing) (fun _ => true) true in
  let args := ["--app"; "com.example.other"; "--days"; "3"] in
  let self' := {| PrepareCommand.app_name_ := "com.example.other";
                  PrepareCommand.days_ := 3 |} in
  let r := PrepareCommand.Run env PrepareCommand.new args sample_world in
  PrepareCommand.ParseOptions PrepareCommand.new args = (true, self') /\
  13 <= GetAndroidVersion env /\
  PrepareCommand.app_name_ self' <> "" /\
  PrepareCommand.days_ self' <> 0 /\
  fst r = Done false /\
  properties (snd r) = properties sample_world /\
  calls (snd r) = [PmListPackages].
Proof.
  intros env args self' r.
  assert (PrepareCommand.ParseOptions PrepareCommand.new args = (true, self'))
    as Hparse by (vm_compute; reflexivity).
  assert (13 <= GetAndroidVersion env) as Hv by discriminate.
  assert (PrepareCommand.app_name_ self' <> "") as Ha by discriminate.
  assert (PrepareCommand.days_ self' <> 0) as Hd by discriminate.
  do 4 (split; [assumption|]).
  apply (prepare_uid_resolution_first env PrepareCommand.new args self'
           sample_world Hparse Hv Ha Hd).
  vm_compute. reflexivity.
Defined.

(** ** Option parsing *)

Lemma preprocess_keys option_formats args :
  forall values values',
    preprocess option_formats args values = Some values' ->
    forall name, is_Some (values' !! name) ->
      is_Some (values !! name) \/
      (In name args /\ is_Some (option_formats !! name)).
Proof.
  remember (length args) as n eqn:Hn.
  revert args Hn. induction n as [n IH] using lt_wf_ind.
  intros [|name rest] Hn values values' Hpre key Hkey; simpl in Hpre.
  { injection Hpre as <-. left. exact Hkey. }
  destruct (option_formats !! name) as [format|] eqn:Hfmt; [|discriminate].
  destruct (values !! name) eqn:Hval; [discriminate|].
  assert (forall (v : OptionValue) (rest' : list string),
            (length rest' < n)%nat ->
            preprocess option_formats rest' (<[name := v]> values) = Some values' ->
            (forall x, In x rest' -> In x (name :: rest)) ->
            is_Some (values !! key) \/
            (In key (name :: rest) /\ is_Some (option_formats !! key))) as Hstep.
  { intros v rest' Hlen Hrec Hsub.
    destruct (IH (length rest') Hlen rest' eq_refl _ _ Hrec key Hkey)
      as [Hin|[Hin Hf]].
    - destruct (decide (name = key)) as [->|Hne].
      + right. split; [left; reflexivity|]. rewrite Hfmt. eauto.
      + left. rewrite lookup_insert_ne in Hin by exact Hne. exact Hin.
    - right. split; [apply Hsub, Hin|exact Hf]. }
  simpl in Hn. subst n.
  destruct (value_type format).
  - apply (Hstep NoValue rest); [lia|exact Hpre|]. intros x Hx. right. exact Hx.
  - destruct rest as [|v rest']; [discriminate|].
    apply (Hstep (StrValue v) rest'); [simpl; lia|exact Hpre|].
    intros x Hx. right. right. exact Hx.
  - destruct rest as [|v rest']; [discriminate|].
    destruct (ParseUint (chars v) UINT64_MAX) as [k|]; [|discriminate].
    apply (Hstep (UintValue k) rest'); [simpl; lia|exact Hpre|].
    intros x Hx. right. right. exact Hx.
Qed.

Lemma PreprocessOptions_keys args option_formats options ordered_options :
  PreprocessOptions args option_formats = Some (options, ordered_options) ->
  ordered_options = [] /\
  forall name, is_Some (options !! name) ->
    In name args /\ is_Some (option_formats !! name).
Proof.
  unfold PreprocessOptions. intros H.
  destruct (preprocess option_formats args ∅) as [values|] eqn:Hpre;
    [|discriminate].
  injection H as <- <-. split; [reflexivity|].
  intros name Hname.
  destruct (preprocess_keys _ _ _ _ Hpre name Hname) as [Hin|Hin]; [|exact Hin].
  rewrite lookup_empty in Hin. destruct Hin as [? [=]].
Qed.

Lemma collect_formats_keys name :
  is_Some (GetApiCollectCmdOptionFormats !! name) ->
  name = "--app" \/ name = "--in-app" \/ name = "-o" \/ name = "--out-fd"
  \/ name = "--stop-signal-fd".
Proof.
  unfold GetApiCollectCmdOptionFormats.
  rewrite !lookup_insert, lookup_empty.
  repeat case_decide; subst; auto.
  intros [? [=]].
Qed.

(** The [CHECK]s of [CollectCommand::ParseOptions] hold: the five pulls take
    every flag the table lets through. *)
Lemma collect_options_consumed args options ordered_options :
  PreprocessOptions args GetApiCollectCmdOptionFormats
    = Some (options, ordered_options) ->
  delete "--stop-signal-fd"
    (delete "--out-fd" (delete "-o" (delete "--in-app" (delete "--app" options))))
  = ∅.
Proof.
  intros H. apply PreprocessOptions_keys in H as [_ H].
  apply map_eq. intros name. rewrite lookup_empty.
  destruct (options !! name) eqn:Hname.
  - destruct (H name) as [_ Hfmt]; [eauto|].
    apply collect_formats_keys in Hfmt.
    rewrite !lookup_delete.
    repeat case_decide; try reflexivity.
    destruct Hfmt as [->|[->|[->|[->| ->]]]]; congruence.
  - rewrite !lookup_delete. repeat case_decide; auto.
Qed.

Lemma collect_ParseOptions_returns self args :
  exists ok self', CollectCommand.ParseOptions self args = Done (ok, self').
Proof.
  unfold CollectCommand.ParseOptions.
  destruct (PreprocessOptions args GetApiCollectCmdOptionFormats)
    as [[options ordered_options]|] eqn:Hpre; [|eauto].
  unfold PullValue, PullBoolValue.
  rewrite (collect_options_consumed _ _ _ Hpre).
  apply PreprocessOptions_keys in Hpre as [-> _].
  rewrite !bool_decide_eq_true_2 by reflexivity. simpl negb. cbv iota.
  match goal with |- context [if ?b then _ else _] => destruct b end; eauto.
Qed.

(** ** [api-collect] in outer mode *)

(** C7.  An [api-collect] invocation whose arguments contain neither
    [--in-app] nor [--app] fails option parsing; the handler returns failure
    and leaves the world as it was, so the run-in-app-context helper is not
    called. *)
Theorem collect_outer_mode_requires_app env args w :
  ~ In "--in-app" args ->
  ~ In "--app" args ->
  (exists self',
     CollectCommand.ParseOptions CollectCommand.new args = Done (false, self'))
  /\ CollectCommand.Run env CollectCommand.new args w = (Done false, w).
Proof.
  intros Hin_app Happ.
  assert (exists self',
     CollectCommand.ParseOptions CollectCommand.new args = Done (false, self'))
    as [self' Hparse].
  { unfold CollectCommand.ParseOptions.
    destruct (PreprocessOptions args GetApiCollectCmdOptionFormats)
      as [[options ordered_options]|] eqn:Hpre; [|eauto].
    unfold PullValue, PullBoolValue.
    rewrite (collect_options_consumed _ _ _ Hpre).
    apply PreprocessOptions_keys in Hpre as [-> Hkeys].
    rewrite !bool_decide_eq_true_2 by reflexivity. simpl negb. cbv iota.
    assert (options !! "--app" = None) as ->.
    { destruct (options !! "--app") eqn:E; [|reflexivity].
      destruct (Hkeys "--app") as [Hin _]; [eauto|]. contradiction. }
    assert (delete "--app" options !! "--in-app" = None) as ->.
    { rewrite lookup_delete_ne by discriminate.
      destruct (options !! "--in-app") eqn:E; [|reflexivity].
      destruct (Hkeys "--in-app") as [Hin _]; [eauto|]. contradiction. }
    rewrite bool_decide_eq_false_2 by (intros [? [=]]).
    simpl. eauto. }
  split; [eauto|].
  unfold CollectCommand.Run, bind, lift. rewrite Hparse. reflexivity.
Qed.

Lemma collect_outer_mode_requires_app_witness :
  let env := sample_env 13 (Some sample_listing) (fun _ => true) true in
  let args := ["-o"; "out.zip"] in
  ~ In "--in-app" args /\
  ~ In "--app" args /\
  (exists self',
     CollectCommand.ParseOptions CollectCommand.new args = Done (false, self'))
  /\ CollectCommand.Run env CollectCommand.new args sample_world
     = (Done false, sample_world).
Proof.
  intros env args.
  assert (~ In "--in-app" args) as H1 by (simpl; intros [|[|[]]]; discriminate).
  assert (~ In "--app" args) as H2 by (simpl; intros [|[|[]]]; discriminate).
  split; [exact H1|]. split; [exact H2|].
  exact (collect_outer_mode_requires_app env args sample_world H1 H2).
Defined.

(** ** [api-collect] in inner mode: the archive *)

Lemma frame_refl w : frame w w.
Proof. repeat split. Qed.

Lemma frame_trans w1 w2 w3 : frame w1 w2 -> frame w2 w3 -> frame w1 w3.
Proof. unfold frame. intuition congruence. Qed.

Lemma frame_set_zip z w : frame w (set_zip z w).
Proof. repeat split. Qed.

Lemma eligible_frame w w' name : frame w w' -> eligible w' name = eligible w name.
Proof.
  intros (_ & Hdir & _). unfold eligible, stat. rewrite Hdir. reflexivity.
Qed.

Section Archive.
Variable env : Env.

(** The copy loop returns within the fuel [collect_entry] gives it, touches
    nothing but the entry being written, appends to it a prefix of the
    bytes left, and all of them when it reports success. *)
Lemma read_loop_spec path fuel :
  forall pos remaining w,
    (length remaining < fuel)%nat ->
    exists ok w' written,
      CollectCommand.read_loop env fuel path pos remaining w = (Done ok, w')
      /\ frame w w'
      /\ entries (zip w') = entries (zip w)
      /\ finished (zip w') = finished (zip w)
      /\ current (zip w')
         = (fun e : string * list byte => (e.1, (e.2 ++ written)%list))
             <$> current (zip w)
      /\ (ok = true -> written = remaining).
Proof.
  induction fuel as [|fuel IH]; intros pos remaining w Hfuel; [lia|].
  assert (current (zip w)
          = (fun e : string * list byte => (e.1, (e.2 ++ [])%list))
              <$> current (zip w)) as Hnil.
  { destruct (current (zip w)) as [[n d]|]; simpl; [|reflexivity].
    rewrite app_nil_r. reflexivity. }
  cbn [CollectCommand.read_loop]. unfold read.
  destruct (read_result env w path pos <? 0) eqn:Herr.
  { cbn. exists false, w, []. split_and!; auto using frame_refl. discriminate. }
  destruct remaining as [|b remaining].
  { cbn. exists true, w, []. split_and!; auto using frame_refl. }
  remember (b :: remaining) as rem eqn:Hrem.
  remember (Z.max 1 (Z.min (read_result env w path pos)
                       (Z.min buffer_size (Z.of_nat (length rem))))) as n eqn:Hn.
  assert (1 <= n <= Z.of_nat (length rem)) as Hbound.
  { subst n rem. unfold buffer_size. simpl length. lia. }
  assert ((n <? 0) = false) as -> by lia.
  assert ((n =? 0) = false) as -> by lia.
  unfold bind at 1. unfold WriteBytes at 1. cbv zeta.
  destruct (WriteBytes_result env w (take (Z.to_nat n) rem) =? 0) eqn:Hrc.
  - cbv beta iota. rewrite Hrc. cbn [negb].
    match goal with
    | |- context [CollectCommand.read_loop env fuel path ?p ?r ?w1] =>
        destruct (IH p r w1) as (ok & w' & written & Hrun & Hfr & He & Hf & Hc & Hok)
    end.
    { rewrite length_drop. subst rem. simpl length in *. lia. }
    rewrite Hrun.
    exists ok, w', (take (Z.to_nat n) rem ++ written)%list.
    split_and!.
    + reflexivity.
    + eapply frame_trans; [apply frame_set_zip|exact Hfr].
    + exact He.
    + exact Hf.
    + rewrite Hc. simpl. destruct (current (zip w)) as [[nm d]|]; simpl;
        [|reflexivity]. rewrite <- app_assoc. reflexivity.
    + intros Ht. rewrite (Hok Ht). apply take_drop.
  - cbv beta iota. rewrite Hrc. simpl.
    exists false, w, []. split_and!; auto using frame_refl. discriminate.
Qed.

(** One turn of the [for] loop: a name that is not eligible is skipped; for
    an eligible one, success means exactly one entry was appended, holding
    the bytes of the file, and a failure leaves at most that entry open. *)
Lemma collect_entry_spec name w :
  exists ok w',
    CollectCommand.collect_entry env name w = (Done ok, w')
    /\ frame w w'
    /\ finished (zip w') = finished (zip w)
    /\ match eligible w name with
       | None => ok = true /\ zip w' = zip w
       | Some content =>
           (ok = true ->
            entries (zip w') = (entries (zip w) ++ [(name, content)])%list
            /\ current (zip w') = None)
           /\ (ok = false ->
               entries (zip w') = entries (zip w)
               /\ (current (zip w') = current (zip w)
                   \/ exists partial, current (zip w') = Some (name, partial)))
       end.
Proof.
  unfold CollectCommand.collect_entry, eligible, IsRegularFile.
  destruct (String.prefix "TemporaryFile-" name).
  { exists true, w. cbn. auto using frame_refl. }
  cbn [orb].
  destruct (stat w (SIMPLEPERF_DATA_DIR +:+ "/" +:+ name))
    as [[content|]|] eqn:Hstat; cbn [negb];
    try (exists true, w; solve [auto using frame_refl]).
  unfold bind at 1. unfold StartEntry at 1. cbv zeta.
  destruct (StartEntry_result env w name =? 0) eqn:Hstart;
    cbv beta iota; rewrite Hstart; cbn [negb].
  2: { exists false, w. cbn. split_and!; auto using frame_refl; discriminate. }
  unfold bind at 1. unfold OpenReadOnly at 1.
  change (stat (set_zip ?z w) ?p) with (stat w p). rewrite Hstat.
  destruct (OpenReadOnly_ok env _ _); cbv beta iota.
  2: { eexists false, _. split; [reflexivity|].
       split_and!; auto using frame_set_zip; try discriminate.
       intros _. cbn. eauto. }
  unfold bind at 1.
  match goal with
  | |- context [CollectCommand.read_loop env ?f ?p ?pos ?r ?w1] =>
      destruct (read_loop_spec p f pos r w1)
        as (ok & w' & written & Hrun & Hfr & He & Hf & Hc & Hok); [lia|]
  end.
  rewrite Hrun. cbn in He, Hf, Hc.
  assert (frame w w') as Hfr'.
  { eapply frame_trans; [apply frame_set_zip|exact Hfr]. }
  destruct ok; cbn [negb].
  2: { exists false, w'. split; [reflexivity|].
       split_and!; auto; try discriminate. intros _. eauto. }
  specialize (Hok eq_refl). subst written.
  unfold bind at 1. unfold FinishEntry at 1. cbv zeta.
  destruct (FinishEntry_result env w' =? 0) eqn:Hfin;
    cbv beta iota; rewrite Hfin; cbn [negb].
  - eexists true, _. split; [reflexivity|].
    split_and!; try discriminate.
    + eapply frame_trans; [exact Hfr'|apply frame_set_zip].
    + exact Hf.
    + intros _. cbn. rewrite He, Hc. auto.
  - exists false, w'. split; [reflexivity|].
    split_and!; auto; try discriminate. intros _. eauto.
Qed.

Lemma collect_entry_names name w ok w' :
  CollectCommand.collect_entry env name w = (Done ok, w') ->
  forall n, In n (archive_names (zip w')) ->
    In n (archive_names (zip w)) \/ (n = name /\ is_Some (eligible w name)).
Proof.
  intros Hrun n Hn.
  destruct (collect_entry_spec name w) as (ok' & w'' & Hrun' & _ & _ & Hcase).
  rewrite Hrun in Hrun'. injection Hrun' as <- <-.
  unfold archive_names in *.
  destruct (eligible w name) as [content|].
  - destruct Hcase as [Hyes Hno]. destruct ok.
    + destruct (Hyes eq_refl) as [He Hc]. rewrite He, Hc in Hn.
      rewrite fmap_app, app_nil_r in Hn. apply in_app_or in Hn as [Hn|Hn].
      * left. apply in_or_app. left. exact Hn.
      * right. destruct Hn as [<-|[]]. eauto.
    + destruct (Hno eq_refl) as [He [Hc|[partial Hc]]]; rewrite He, Hc in Hn.
      * left. exact Hn.
      * apply in_app_or in Hn as [Hn|Hn].
        -- left. apply in_or_app. left. exact Hn.
        -- right. destruct Hn as [<-|[]]. eauto.
  - destruct Hcase as [_ Hz]. rewrite Hz in Hn. left. exact Hn.
Qed.

(** The whole [for] loop. *)
Lemma collect_entries_spec names :
  forall w,
  exists ok w',
    CollectCommand.collect_entries env names w = (Done ok, w')
    /\ frame w w'
    /\ finished (zip w') = finished (zip w)
    /\ (ok = true ->
        entries (zip w')
        = (entries (zip w)
           ++ omap (fun n => (fun c => (n, c)) <$> eligible w n) names)%list
        /\ (current (zip w) = None -> current (zip w') = None))
    /\ (forall n, In n (archive_names (zip w')) ->
          In n (archive_names (zip w))
          \/ (In n names /\ is_Some (eligible w n))).
Proof.
  induction names as [|name names IH]; intros w.
  { exists true, w. cbn. rewrite app_nil_r. split_and!; auto using frame_refl. }
  cbn [CollectCommand.collect_entries]. unfold bind at 1.
  destruct (collect_entry_spec name w) as (ok & w1 & Hrun & Hfr & Hf & Hcase).
  pose proof (collect_entry_names _ _ _ _ Hrun) as Hnames.
  rewrite Hrun. destruct ok; cbn [negb].
  - destruct (IH w1) as (ok & w' & Hrun' & Hfr' & Hf' & Hyes & Hnames').
    exists ok, w'. split; [exact Hrun'|].
    split; [eapply frame_trans; eassumption|].
    split; [congruence|]. split.
    + intros Hok. destruct (Hyes Hok) as [He Hc]. rewrite He.
      assert (forall l,
        omap (fun n => (fun c => (n, c)) <$> eligible w1 n) l
        = omap (fun n => (fun c => (n, c)) <$> eligible w n) l) as ->.
      { intros l. induction l as [|x l IHl]; [reflexivity|].
        cbn. rewrite (eligible_frame _ _ _ Hfr), IHl. reflexivity. }
      cbn [omap list_omap].
      destruct (eligible w name) as [content|]; cbn.
      * destruct Hcase as [Hcase _]. destruct (Hcase eq_refl) as [He1 Hc1].
        rewrite He1, <- app_assoc. split; [reflexivity|]. intros _. auto.
      * destruct Hcase as [_ Hz]. rewrite Hz. split; [reflexivity|].
        rewrite Hz in Hc. exact Hc.
    + intros n Hn. destruct (Hnames' n Hn) as [Hin|[Hin Hel]].
      * destruct (Hnames n Hin) as [?|[-> ?]]; [auto|].
        right. split; [left; reflexivity|assumption].
      * right. split; [right; exact Hin|].
        rewrite <- (eligible_frame _ _ _ Hfr). exact Hel.
  - exists false, w1. split; [reflexivity|].
    split_and!; auto; [discriminate|].
    intros n Hn. destruct (Hnames n Hn) as [?|[-> ?]]; [auto|].
    right. split; [left; reflexivity|assumption].
Qed.

(** [CollectRecordingData] always returns (no [CHECK] on its path, and the
    copy loops end within their fuel), changes nothing but the zip stream,
    and archives exactly the eligible names when it reports success. *)
Lemma CollectRecordingData_spec self w :
  exists ok w',
    CollectCommand.CollectRecordingData env self w = (Done ok, w')
    /\ frame w w'
    /\ (ok = true ->
        entries (zip w')
        = omap (fun n => (fun c => (n, c)) <$> eligible w n)
            (GetEntriesInDir w SIMPLEPERF_DATA_DIR)
        /\ current (zip w') = None
        /\ finished (zip w') = true)
    /\ (zip w' = zip w
        \/ forall n, In n (archive_names (zip w')) ->
             In n (GetEntriesInDir w SIMPLEPERF_DATA_DIR)
             /\ is_Some (eligible w n)).
Proof.
  unfold CollectCommand.CollectRecordingData.
  destruct (Fdopen_ok env w (CollectCommand.out_fd_ self)); cbn [negb].
  2: { exists false, w. split_and!; auto using frame_refl. discriminate. }
  unfold bind at 1.
  destruct (collect_entries_spec (GetEntriesInDir w SIMPLEPERF_DATA_DIR)
              (set_zip new_ZipWriter w))
    as (ok & w1 & Hrun & Hfr & Hf & Hyes & Hnames).
  rewrite Hrun.
  assert (frame w w1) as Hfr1.
  { eapply frame_trans; [apply frame_set_zip|exact Hfr]. }
  assert (forall n, In n (archive_names (zip w1)) ->
            In n (GetEntriesInDir w SIMPLEPERF_DATA_DIR)
            /\ is_Some (eligible w n)) as Hnames1.
  { intros n Hn. destruct (Hnames n Hn) as [[]|Hin]. exact Hin. }
  destruct ok; cbn [negb].
  2: { exists false, w1. split_and!; auto. discriminate. }
  destruct (Hyes eq_refl) as [He Hc]. specialize (Hc eq_refl).
  cbn in He.
  unfold bind at 1. unfold Finish at 1. cbv zeta.
  destruct (Finish_result env w1 =? 0) eqn:Hfin;
    cbv beta iota; rewrite Hfin; cbn [negb].
  - eexists true, _. split; [reflexivity|]. split_and!.
    + eapply frame_trans; [exact Hfr1|apply frame_set_zip].
    + intros _. cbn. auto.
    + right. exact Hnames1.
  - exists false, w1. split_and!; auto. discriminate.
Qed.
End Archive.

Lemma stat_data_dir w d name :
  data_dir w = Some d ->
  stat w (SIMPLEPERF_DATA_DIR +:+ "/" +:+ name) = lookup_node d name.
Proof. intros H. unfold stat. cbn. rewrite H. reflexivity. Qed.

Lemma lookup_node_NoDup (d : directory) name nd :
  NoDup d.*1 -> In (name, nd) d -> lookup_node d name = Some nd.
Proof.
  unfold lookup_node.
  induction d as [|[n0 nd0] d IH]; intros Hnd Hin; [destruct Hin|].
  cbn in Hnd. apply NoDup_cons in Hnd as [Hn0 Hnd]. cbn.
  destruct (String.eqb_spec n0 name) as [->|Hne].
  - destruct Hin as [Heq|Hin]; [injection Heq as <-; reflexivity|].
    exfalso. apply Hn0. apply list_elem_of_In.
    apply (in_map fst) in Hin. exact Hin.
  - destruct Hin as [Heq|Hin]; [congruence|]. apply IH; assumption.
Qed.

Lemma eligible_archived w (d : directory) :
  data_dir w = Some d -> NoDup d.*1 ->
  omap (fun n => (fun c => (n, c)) <$> eligible w n) d.*1 = omap archived d.
Proof.
  intros Hdir Hnd.
  assert (forall l : directory, (forall e, In e l -> In e d) ->
    omap (fun n => (fun c => (n, c)) <$> eligible w n) l.*1 = omap archived l)
    as Hgen; [|apply Hgen; auto].
  induction l as [|[n nd] l IH]; intros Hsub; [reflexivity|].
  cbn. rewrite IH by (intros e He; apply Hsub; right; exact He).
  unfold eligible, archived. cbn [fst snd].
  rewrite (stat_data_dir _ _ _ Hdir).
  rewrite (lookup_node_NoDup d n nd Hnd) by (apply Hsub; left; reflexivity).
  destruct (String.prefix "TemporaryFile-" n); [reflexivity|].
  destruct nd; reflexivity.
Qed.

Lemma archived_name e a : archived e = Some a -> a.1 = e.1.
Proof.
  unfold archived. destruct (String.prefix _ _); [discriminate|].
  destruct e.2; [|discriminate]. intros [= <-]. reflexivity.
Qed.

Lemma archived_absent (d : directory) name :
  ~ In name d.*1 ->
  filter (fun a : string * list byte => a.1 = name) (omap archived d) = [].
Proof.
  induction d as [|e d IH]; intros Hnot; [reflexivity|].
  cbn. destruct (archived e) as [a|] eqn:Ha.
  - rewrite filter_cons_False.
    + apply IH. intros Hin. apply Hnot. right. exact Hin.
    + rewrite (archived_name _ _ Ha). intros Heq. apply Hnot. left. exact Heq.
  - apply IH. intros Hin. apply Hnot. right. exact Hin.
Qed.

Lemma archived_once (d : directory) name content :
  NoDup d.*1 ->
  In (name, RegularFile content) d ->
  String.prefix "TemporaryFile-" name = false ->
  filter (fun a : string * list byte => a.1 = name) (omap archived d)
  = [(name, content)].
Proof.
  induction d as [|[n0 nd0] d IH]; intros Hnd Hin Hpre; [destruct Hin|].
  cbn in Hnd. apply NoDup_cons in Hnd as [Hn0 Hnd].
  rewrite list_elem_of_In in Hn0.
  destruct (decide (n0 = name)) as [->|Hne].
  - assert (nd0 = RegularFile content) as ->.
    { destruct Hin as [Heq|Hin]; [congruence|].
      exfalso. apply Hn0. apply (in_map fst) in Hin. exact Hin. }
    cbn. unfold archived at 1. cbn [fst snd]. rewrite Hpre.
    rewrite filter_cons_True by reflexivity.
    rewrite (archived_absent d name Hn0). reflexivity.
  - destruct Hin as [Heq|Hin]; [congruence|].
    cbn. destruct (archived (n0, nd0)) as [a|] eqn:Ha.
    + rewrite filter_cons_False; [apply IH; assumption|].
      rewrite (archived_name _ _ Ha). exact Hne.
    + apply IH; assumption.
Qed.

Lemma GetEntriesInDir_data_dir w d :
  data_dir w = Some d -> GetEntriesInDir w SIMPLEPERF_DATA_DIR = d.*1.
Proof. intros H. unfold GetEntriesInDir. cbn. rewrite H. reflexivity. Qed.

(** C1.  Whatever the directory holds (names being distinct, as in any
    directory) and however the collaborators behave, when
    [CollectRecordingData] succeeds the archive is complete and closed, its
    entries are exactly the regular files without the temporary prefix, in
    directory order, each under its own name with its own bytes; hence every
    such file is found in the archive exactly once. *)
Theorem collect_archives_every_regular_file env self w w' (d : directory) :
  data_dir w = Some d ->
  NoDup d.*1 ->
  CollectCommand.CollectRecordingData env self w = (Done true, w') ->
  entries (zip w') = omap archived d
  /\ current (zip w') = None
  /\ finished (zip w') = true
  /\ forall name content,
       In (name, RegularFile content) d ->
       String.prefix "TemporaryFile-" name = false ->
       filter (fun a : string * list byte => a.1 = name) (entries (zip w'))
       = [(name, content)].
Proof.
  intros Hdir Hnd Hrun.
  destruct (CollectRecordingData_spec env self w)
    as (ok & w'' & Hrun' & _ & Hyes & _).
  rewrite Hrun in Hrun'. injection Hrun' as <- <-.
  destruct (Hyes eq_refl) as (He & Hc & Hf).
  rewrite (GetEntriesInDir_data_dir _ _ Hdir) in He.
  rewrite (eligible_archived _ _ Hdir Hnd) in He.
  split_and!; auto.
  intros name content Hin Hpre. rewrite He.
  apply archived_once; assumption.
Qed.

Lemma sample_dir_NoDup : NoDup sample_dir.*1.
Proof. apply (bool_decide_unpack _). vm_compute. exact I. Defined.

Lemma collect_archives_every_regular_file_witness :
  let env := sample_env 13 None (fun _ => true) true in
  let r := CollectCommand.CollectRecordingData env CollectCommand.new
             sample_world in
  data_dir sample_world = Some sample_dir /\
  NoDup sample_dir.*1 /\
  r = (Done true, snd r) /\
  entries (zip (snd r)) = [("perf.data", list_byte_of_string "abc")] /\
  current (zip (snd r)) = None /\
  finished (zip (snd r)) = true.
Proof.
  intros env r.
  assert (r = (Done true, snd r)) as Hrun by (vm_compute; reflexivity).
  split; [reflexivity|]. split; [exact sample_dir_NoDup|].
  split; [exact Hrun|].
  destruct (collect_archives_every_regular_file env CollectCommand.new
              sample_world (snd r) sample_dir eq_refl sample_dir_NoDup Hrun)
    as (He & Hc & Hf & _).
  split; [exact He|]. split; [exact Hc|exact Hf].
Defined.

(** C4.  Starting from an empty output stream, no entry of the archive, closed
    or still open, complete or cut short by a failure, bears a name with the
    temporary prefix or a name that is not that of a regular file in the data
    directory. *)
Theorem collect_skips_temporary_and_non_regular env self w r w' name :
  archive_names (zip w) = [] ->
  CollectCommand.CollectRecordingData env self w = (r, w') ->
  String.prefix "TemporaryFile-" name = true
  \/ IsRegularFile w (SIMPLEPERF_DATA_DIR +:+ "/" +:+ name) = false ->
  ~ In name (archive_names (zip w')).
Proof.
  intros Hempty Hrun Hskip Hin.
  destruct (CollectRecordingData_spec env self w)
    as (ok & w'' & Hrun' & _ & _ & Hnames).
  rewrite Hrun in Hrun'. injection Hrun' as -> <-.
  destruct Hnames as [Hz|Hnames].
  { rewrite Hz, Hempty in Hin. destruct Hin. }
  destruct (Hnames name Hin) as [_ [content Hel]].
  unfold eligible, IsRegularFile in *.
  destruct Hskip as [Hpre|Hreg].
  - rewrite Hpre in Hel. discriminate.
  - destruct (String.prefix _ _); [discriminate|].
    destruct (stat w _) as [[]|]; discriminate.
Qed.

Lemma collect_skips_temporary_and_non_regular_witness :
  let env := sample_env 13 None (fun _ => true) true in
  let r := CollectCommand.CollectRecordingData env CollectCommand.new
             sample_world in
  archive_names (zip sample_world) = [] /\
  (String.prefix "TemporaryFile-" "TemporaryFile-42" = true
   \/ IsRegularFile sample_world
        (SIMPLEPERF_DATA_DIR +:+ "/" +:+ "TemporaryFile-42") = false) /\
  ~ In "TemporaryFile-42" (archive_names (zip (snd r))).
Proof.
  intros env r.
  split; [reflexivity|]. split; [left; reflexivity|].
  apply (collect_skips_temporary_and_non_regular env CollectCommand.new
           sample_world (fst r) (snd r) "TemporaryFile-42" eq_refl).
  - apply surjective_pairing.
  - left. reflexivity.
Defined.

(** ** [api-collect] in inner mode: removal of the directory *)

(** The exact course of an inner-mode run: the thread is started and looked
    at, the data is collected, the thread is looked at, and after a
    successful collection the directory is removed and the thread looked at
    once more. *)
Lemma collect_Run_inner env self args self' w :
  CollectCommand.ParseOptions self args = Done (true, self') ->
  CollectCommand.in_app_context_ self' = true ->
  let fd := CollectCommand.stop_signal_fd_ self' in
  let due := fun w' => (fd <? 0) || stop_signal_ready env w' fd in
  let w1 := log (StopSignalThread fd) w in
  exists collected wc,
    CollectCommand.CollectRecordingData env self' w1 = (Done collected, wc)
    /\ CollectCommand.Run env self args w
       = if due w1 then (Exited 1, w1)
         else if due wc then (Exited 1, wc)
         else if collected
         then let rr := CollectCommand.RemoveRecordingData env wc in
              if due (snd rr) then (Exited 1, snd rr) else rr
         else (Done false, wc).
Proof.
  intros Hparse Hin fd due w1.
  destruct (CollectRecordingData_spec env self' w1)
    as (collected & wc & Hrun & _).
  exists collected, wc. split; [exact Hrun|].
  unfold CollectCommand.Run, bind at 1, lift. rewrite Hparse.
  cbn [negb]. rewrite Hin.
  unfold bind at 1, CollectCommand.HandleStopSignal,
    CollectCommand.stop_signal_thread at 1.
  fold fd. fold w1. fold (due w1).
  destruct (due w1); [reflexivity|].
  unfold bind at 1. rewrite Hrun.
  unfold bind at 1, CollectCommand.stop_signal_thread at 1.
  fold fd. fold (due wc).
  destruct (due wc); [reflexivity|].
  destruct collected; cbn [negb]; [|reflexivity].
  unfold bind, CollectCommand.stop_signal_thread, ret.
  unfold CollectCommand.RemoveRecordingData, do_RunCmd. fold fd.
  destruct (RunCmd_ok env wc _); cbn [snd];
    match goal with |- context [due ?x] => destruct (due x) eqn:Hdue end;
    unfold due in Hdue; rewrite Hdue; reflexivity.
Qed.

(** An inner-mode run that returns is the conjunction of line 186 on the
    world the thread was started in. *)
Lemma collect_Run_inner_returns env self args self' w b :
  CollectCommand.ParseOptions self args = Done (true, self') ->
  CollectCommand.in_app_context_ self' = true ->
  let w1 := log (StopSignalThread (CollectCommand.stop_signal_fd_ self')) w in
  fst (CollectCommand.Run env self args w) = Done b ->
  exists collected wc,
    CollectCommand.CollectRecordingData env self' w1 = (Done collected, wc)
    /\ CollectCommand.Run env self args w
       = if collected then CollectCommand.RemoveRecordingData env wc
         else (Done false, wc).
Proof.
  intros Hparse Hin w1 Hret.
  destruct (collect_Run_inner env self args self' w Hparse Hin)
    as (collected & wc & Hrun & Hr).
  exists collected, wc. split; [exact Hrun|].
  cbv zeta in Hr. fold w1 in Hr. rewrite Hr in Hret. rewrite Hr.
  destruct (_ || stop_signal_ready env w1 _); [discriminate|].
  destruct (_ || stop_signal_ready env wc _); [discriminate|].
  destruct collected; [|reflexivity].
  destruct (_ || stop_signal_ready env _ _); [discriminate|reflexivity].
Qed.




(** ** The regular expression of [GetAppUid] *)

Local Open Scope list_scope.

Lemma span_app p s : ((span p s).1 ++ (span p s).2)%list = s.
Proof.
  induction s as [|c s IH]; [reflexivity|]. cbn.
  destruct (p c); [|reflexivity].
  destruct (span p s) as [a b]. cbn in *. rewrite IH. reflexivity.
Qed.

Lemma span_all p s : forallb p (span p s).1 = true.
Proof.
  induction s as [|c s IH]; [reflexivity|]. cbn.
  destruct (p c) eqn:Hc; [|reflexivity].
  destruct (span p s) as [a b]. cbn in *. rewrite Hc, IH. reflexivity.
Qed.

Lemma span_stop p s : starts_with p (span p s).2 = false.
Proof.
  induction s as [|c s IH]; [reflexivity|]. cbn.
  destruct (p c) eqn:Hc; [|cbn; exact Hc].
  destruct (span p s) as [a b]. exact IH.
Qed.

Lemma span_take p s : take (length s - length (span p s).2) s = (span p s).1.
Proof.
  rewrite <- (span_app p s) at 1 3.
  rewrite length_app, Nat.add_sub. apply take_app_length.
Qed.

(** A literal is matched by stripping it. *)
Lemma exec_Lit l caps s :
  exec (Lit l) caps s
  = match strip l s with Some s' => [(caps, s')] | None => [] end.
Proof.
  revert s. induction l as [|a l IH]; intros s; [reflexivity|].
  cbn [Lit exec strip atom_ok]. destruct s as [|b s]; [reflexivity|].
  destruct (Ascii.eqb a b); [|reflexivity].
  cbn. rewrite IH, app_nil_r. reflexivity.
Qed.

(** Greedy repetition: the first alternative is the longest one, and every
    other leaves an input that starts with a character of the class. *)
Lemma star_shape a s :
  exists others,
    star a s = (span (atom_ok a) s).2 :: others
    /\ Forall (fun o => starts_with (atom_ok a) o = true) others.
Proof.
  induction s as [|c s (others & Hs & Ho)]; [exists []; split; [reflexivity|constructor]|].
  cbn. destruct (atom_ok a c) eqn:Hc.
  - exists (others ++ [c :: s])%list. rewrite Hs.
    destruct (span (atom_ok a) s) as [x y]. split; [reflexivity|].
    apply Forall_app. split; [exact Ho|]. repeat constructor. exact Hc.
  - exists []. split; [reflexivity|constructor].
Qed.

Lemma plus_shape a s :
  (nonempty (span (atom_ok a) s).1 = false /\ plus a s = [])
  \/ (nonempty (span (atom_ok a) s).1 = true /\
      exists others,
        plus a s = (span (atom_ok a) s).2 :: others
        /\ Forall (fun o => starts_with (atom_ok a) o = true) others).
Proof.
  destruct s as [|c s]; [left; split; reflexivity|].
  cbn. destruct (atom_ok a c) eqn:Hc; [|left; split; reflexivity].
  right. destruct (star_shape a s) as (others & Hs & Ho).
  destruct (span (atom_ok a) s) as [x y]. split; [reflexivity|].
  exists others. split; assumption.
Qed.

Lemma bind_dead {A B} (f : A -> list B) x others :
  Forall (fun o => f o = []) others -> (x :: others) ≫= f = f x.
Proof.
  intros H. cbn. 
  assert (others ≫= f = []) as ->; [|apply app_nil_r].
  induction H as [|o others Ho _ IH]; [reflexivity|].
  cbn. rewrite Ho, IH. reflexivity.
Qed.

(** What follows a repetition cannot start inside it when it begins with a
    character outside the class, literal or class of its own. *)
Lemma exec_Seq_Plus_dead a r caps o :
  starts_with (fun c => negb (atom_ok a c)) o = true ->
  exec (Seq (Plus a) r) caps o = [].
Proof.
  intros H. cbn [exec]. destruct o as [|c o]; [reflexivity|].
  cbn in *. destruct (atom_ok a c); [discriminate|reflexivity].
Qed.

Lemma exec_Seq_Lit_dead c l r caps o :
  starts_with (fun x => negb (Ascii.eqb c x)) o = true ->
  exec (Seq (Lit (c :: l)) r) caps o = [].
Proof.
  intros H. cbn [exec]. rewrite exec_Lit.
  destruct o as [|x o]; [reflexivity|].
  cbn in *. destruct (Ascii.eqb c x); [discriminate|reflexivity].
Qed.

Lemma starts_with_impl (p q : ascii -> bool) :
  (forall c, p c = true -> q c = true) ->
  forall o, starts_with p o = true -> starts_with q o = true.
Proof. intros H [|c o]; [discriminate|]. apply H. Qed.

Lemma word_or_dot_not_space c : is_word_or_dot c = true -> is_space c = false.
Proof.
  destruct c as [[] [] [] [] [] [] [] []]; vm_compute; congruence.
Qed.

Lemma space_not_u c : is_space c = true -> Ascii.eqb "u" c = false.
Proof.
  destruct c as [[] [] [] [] [] [] [] []]; vm_compute; congruence.
Qed.

Lemma exec_Lit_Seq l r caps s :
  exec (Seq (Lit l) r) caps s
  = match strip l s with Some s' => exec r caps s' | None => [] end.
Proof.
  cbn [exec]. rewrite exec_Lit.
  destruct (strip l s); [|reflexivity]. cbn. apply app_nil_r.
Qed.

Lemma exec_Plus_Seq a r caps s :
  (forall o, starts_with (atom_ok a) o = true -> exec r caps o = []) ->
  exec (Seq (Plus a) r) caps s
  = if nonempty (span (atom_ok a) s).1
    then exec r caps (span (atom_ok a) s).2 else [].
Proof.
  intros Hdead. cbn [exec].
  destruct (plus_shape a s) as [[-> ->]|(-> & others & -> & Ho)];
    [reflexivity|].
  rewrite fmap_cons. rewrite bind_dead; [reflexivity|].
  apply Forall_fmap. eapply Forall_impl; [exact Ho|].
  intros o Hs. cbn. apply Hdead, Hs.
Qed.

Lemma exec_Group_Plus a caps s :
  exists others,
    exec (Group (Plus a)) caps s
    = ((if nonempty (span (atom_ok a) s).1
        then [((caps ++ [(span (atom_ok a) s).1])%list, (span (atom_ok a) s).2)]
        else []) ++ others)%list
    /\ Forall (fun m : list text * text =>
                 starts_with (atom_ok a) m.2 = true) others
    /\ (nonempty (span (atom_ok a) s).1 = false -> others = []).
Proof.
  cbn [exec].
  destruct (plus_shape a s) as [[-> ->]|(-> & others & -> & Ho)].
  { exists []. split; [reflexivity|]. split; [constructor|reflexivity]. }
  eexists. rewrite !fmap_cons. cbn [fst snd]. rewrite span_take.
  split; [reflexivity|]. split; [|discriminate].
  rewrite <- list_fmap_compose. apply Forall_fmap.
  eapply Forall_impl; [exact Ho|]. intros o Hs. exact Hs.
Qed.

Lemma exec_Group_Plus_Seq a r caps s :
  (forall caps' o, starts_with (atom_ok a) o = true -> exec r caps' o = []) ->
  exec (Seq (Group (Plus a)) r) caps s
  = if nonempty (span (atom_ok a) s).1
    then exec r (caps ++ [(span (atom_ok a) s).1])%list (span (atom_ok a) s).2
    else [].
Proof.
  intros Hdead. cbn [exec].
  destruct (exec_Group_Plus a caps s) as (others & He & Ho & _).
  cbn [exec] in He. rewrite He.
  assert (others ≫= (fun m : list text * text => exec r m.1 m.2) = []) as Hnil.
  { clear He. induction Ho as [|m others Hm _ IH]; [reflexivity|].
    cbn. rewrite (Hdead _ _ Hm). exact IH. }
  destruct (nonempty _); cbn; rewrite Hnil; [apply app_nil_r|reflexivity].
Qed.

(** The backtracking matcher and the scanner agree on the expression of
    [GetAppUid]. *)
Lemma exec_package_uid_re s :
  head (exec package_uid_re [] s)
  = (fun x : text * text * text => ([x.1.1; x.1.2], x.2)) <$> scan_here s.
Proof.
  unfold package_uid_re, scan_here.
  rewrite exec_Lit_Seq.
  destruct (strip (chars "package:") s) as [s1|]; [|reflexivity]. cbn [mbind option_bind].
  rewrite exec_Group_Plus_Seq.
  2: { intros caps' o Ho. apply exec_Seq_Plus_dead.
       revert Ho. apply starts_with_impl. intros c Hc. cbn.
       rewrite (word_or_dot_not_space c Hc). reflexivity. }
  change (atom_ok (Class is_word_or_dot)) with is_word_or_dot.
  destruct (span is_word_or_dot s1) as [name s2]. cbn [fst snd].
  rewrite exec_Plus_Seq.
  2: { intros o Ho. apply exec_Seq_Lit_dead.
       revert Ho. apply starts_with_impl. intros c Hc. cbn in Hc.
       rewrite (space_not_u c Hc). reflexivity. }
  change (atom_ok (Class is_space)) with is_space.
  destruct (span is_space s2) as [ws s3]. cbn [fst snd].
  rewrite exec_Lit_Seq.
  destruct (strip (chars "uid:") s3) as [s4|];
    [|destruct (nonempty name), (nonempty ws); reflexivity].
  cbn [mbind option_bind].
  destruct (exec_Group_Plus (Class is_digit) ([] ++ [name]) s4)
    as (others & -> & _ & Hnone).
  change (atom_ok (Class is_digit)) with is_digit in *.
  destruct (span is_digit s4) as [uid s5]. cbn [fst snd] in *.
  destruct (nonempty uid); [|rewrite (Hnone eq_refl)];
    destruct (nonempty name), (nonempty ws); reflexivity.
Qed.

Lemma match_here_scan s :
  match_here package_uid_re s
  = (fun x : text * text * text =>
       ([take (length s - length x.2) s; x.1.1; x.1.2], x.2)) <$> scan_here s.
Proof.
  unfold match_here. rewrite exec_package_uid_re.
  destruct (scan_here s) as [[[name uid] rest]|]; reflexivity.
Qed.

(** *** The scanner, declaratively *)

Lemma strip_Some l s s' : strip l s = Some s' <-> s = (l ++ s')%list.
Proof.
  revert s. induction l as [|a l IH]; intros s; cbn.
  - split; [intros [= ->]; reflexivity|intros ->; reflexivity].
  - destruct s as [|b s]; [split; discriminate|].
    destruct (Ascii.eqb_spec a b) as [->|Hne].
    + rewrite IH. split; [intros ->; reflexivity|intros [= ->]; reflexivity].
    + split; [discriminate|]. intros [= -> _]. contradiction.
Qed.

Lemma span_exact p a b :
  forallb p a = true -> starts_with p b = false -> span p (a ++ b)%list = (a, b).
Proof.
  intros Ha Hb. induction a as [|c a IH]; simpl.
  - destruct b as [|c b]; [reflexivity|]. simpl in *. rewrite Hb. reflexivity.
  - simpl in Ha. apply andb_true_iff in Ha as [Hc Ha]. rewrite Hc, (IH Ha).
    reflexivity.
Qed.

Lemma nonempty_true s : nonempty s = true <-> s <> [].
Proof. destruct s; cbn; split; congruence. Qed.

Lemma scan_here_sound s name uid rest :
  scan_here s = Some (name, uid, rest) ->
  exists ws, line_at s name ws uid rest.
Proof.
  unfold scan_here, line_at.
  destruct (strip (chars "package:") s) as [s1|] eqn:H1; [|discriminate].
  cbn [mbind option_bind].
  pose proof (span_app is_word_or_dot s1) as A1.
  pose proof (span_all is_word_or_dot s1) as B1.
  destruct (span is_word_or_dot s1) as [name' s2].
  pose proof (span_app is_space s2) as A2.
  pose proof (span_all is_space s2) as B2.
  destruct (span is_space s2) as [ws s3].
  destruct (strip (chars "uid:") s3) as [s4|] eqn:H4; [|discriminate].
  cbn [mbind option_bind].
  pose proof (span_app is_digit s4) as A3.
  pose proof (span_all is_digit s4) as B3.
  pose proof (span_stop is_digit s4) as C3.
  destruct (span is_digit s4) as [uid' s5]. cbn [fst snd] in *.
  destruct (nonempty name') eqn:N1; [|discriminate].
  destruct (nonempty ws) eqn:N2; [|discriminate].
  destruct (nonempty uid') eqn:N3; [|discriminate].
  intros [= -> -> ->]. exists ws.
  apply strip_Some in H1, H4. apply nonempty_true in N1, N2, N3.
  split_and!; auto. congruence.
Qed.

Lemma starts_with_app p a b :
  a <> [] -> starts_with p (a ++ b)%list = starts_with p a.
Proof. destruct a; [congruence|reflexivity]. Qed.

Lemma starts_with_forallb p a :
  a <> [] -> forallb p a = true -> starts_with p a = true.
Proof.
  destruct a; [congruence|]. cbn. intros _ H.
  apply andb_true_iff in H as [H _]. exact H.
Qed.

Lemma starts_with_disjoint (p q : ascii -> bool) a :
  (forall c, q c = true -> p c = false) ->
  starts_with q a = true -> starts_with p a = false.
Proof. intros H. destruct a; [reflexivity|]. cbn. apply H. Qed.

Lemma space_not_word_or_dot c : is_space c = true -> is_word_or_dot c = false.
Proof.
  intros H. destruct (is_word_or_dot c) eqn:E; [|reflexivity].
  rewrite (word_or_dot_not_space c E) in H. discriminate.
Qed.

Lemma scan_here_complete s name ws uid rest :
  line_at s name ws uid rest -> scan_here s = Some (name, uid, rest).
Proof.
  intros (-> & N1 & W1 & N2 & W2 & N3 & W3 & Hrest).
  unfold scan_here.
  assert (strip (chars "package:")
            (chars "package:" ++ name ++ ws ++ chars "uid:" ++ uid ++ rest)%list
          = Some (name ++ ws ++ chars "uid:" ++ uid ++ rest)%list) as ->
    by (apply strip_Some; reflexivity).
  cbn [mbind option_bind].
  assert (starts_with is_word_or_dot
            (ws ++ chars "uid:" ++ uid ++ rest)%list = false) as Hws.
  { rewrite starts_with_app by exact N2.
    apply (starts_with_disjoint _ is_space), starts_with_forallb; auto.
    apply space_not_word_or_dot. }
  rewrite (span_exact is_word_or_dot name _ W1 Hws).
  rewrite (span_exact is_space ws (chars "uid:" ++ uid ++ rest)%list W2 eq_refl).
  assert (strip (chars "uid:") (chars "uid:" ++ uid ++ rest)%list
          = Some (uid ++ rest)%list) as -> by (apply strip_Some; reflexivity).
  cbn [mbind option_bind].
  rewrite (span_exact is_digit uid _ W3 Hrest).
  apply nonempty_true in N1, N2, N3. rewrite N1, N2, N3. reflexivity.
Qed.

(** *** Searching and iterating *)

Lemma line_at_length t name ws uid rest :
  line_at t name ws uid rest -> (length rest < length t)%nat.
Proof. intros (-> & _). rewrite !length_app. cbn. lia. Qed.

Lemma regex_search_Some s m rest :
  regex_search package_uid_re s = Some (m, rest) ->
  exists skipped t name uid,
    s = (skipped ++ t)%list
    /\ scan_here t = Some (name, uid, rest)
    /\ m = [take (length t - length rest) t; name; uid].
Proof.
  induction s as [|c s IH]; cbn [regex_search]; rewrite match_here_scan.
  - destruct (scan_here []) as [[[name uid] r]|] eqn:Hs; [|discriminate].
    cbn. intros [= <- <-]. exists [], [], name, uid. auto.
  - destruct (scan_here (c :: s)) as [[[name uid] r]|] eqn:Hs.
    + cbn [fmap option_fmap option_map fst snd]. intros [= <- <-].
      exists [], (c :: s), name, uid. auto.
    + cbn [fmap option_fmap option_map]. intros H.
      destruct (IH H) as (skipped & t & name & uid & -> & Ht & ->).
      exists (c :: skipped), t, name, uid. auto.
Qed.

Lemma regex_search_shorter s m rest :
  regex_search package_uid_re s = Some (m, rest) ->
  (length rest < length s)%nat.
Proof.
  intros H. destruct (regex_search_Some _ _ _ H)
    as (skipped & t & name & uid & -> & Ht & _).
  destruct (scan_here_sound _ _ _ _ Ht) as [ws Hl].
  apply line_at_length in Hl. rewrite length_app. lia.
Qed.

(** The iteration ends within the fuel [sregex_iterator] gives it: more fuel
    finds the same matches. *)
Lemma regex_iterate_fuel fuel1 :
  forall fuel2 s,
    (length s < fuel1)%nat -> (length s < fuel2)%nat ->
    regex_iterate fuel1 package_uid_re s = regex_iterate fuel2 package_uid_re s.
Proof.
  induction fuel1 as [|fuel1 IH]; intros [|fuel2] s H1 H2; try lia.
  cbn [regex_iterate].
  destruct (regex_search package_uid_re s) as [[m rest]|] eqn:Hs;
    [|reflexivity].
  apply regex_search_shorter in Hs. f_equal. apply IH; lia.
Qed.

Lemma sregex_iterator_unfold s :
  sregex_iterator package_uid_re s
  = match regex_search package_uid_re s with
    | Some (m, rest) => m :: sregex_iterator package_uid_re rest
    | None => []
    end.
Proof.
  unfold sregex_iterator.
  change (regex_iterate (S (length s)) package_uid_re s)
    with (match regex_search package_uid_re s with
          | Some (m, rest) => m :: regex_iterate (length s) package_uid_re rest
          | None => []
          end).
  destruct (regex_search package_uid_re s) as [[m rest]|] eqn:Hs;
    [|reflexivity].
  apply regex_search_shorter in Hs. f_equal. apply regex_iterate_fuel; lia.
Qed.

(** Every match the iterator yields is an occurrence of the line format. *)
Lemma sregex_iterator_sound s m :
  In m (sregex_iterator package_uid_re s) ->
  exists whole name uid, m = [whole; name; uid] /\ occurs_in s name uid.
Proof.
  remember (length s) as n eqn:Hn. revert s Hn m.
  induction n as [n IH] using lt_wf_ind. intros s -> m.
  rewrite sregex_iterator_unfold.
  destruct (regex_search package_uid_re s) as [[m0 rest]|] eqn:Hs;
    [|intros []].
  pose proof (regex_search_shorter _ _ _ Hs) as Hlen.
  destruct (regex_search_Some _ _ _ Hs)
    as (skipped & t & name & uid & -> & Ht & ->).
  destruct (scan_here_sound _ _ _ _ Ht) as [ws Hl].
  intros [<-|Hin].
  - eexists _, name, uid. split; [reflexivity|].
    exists skipped, t, ws, rest. auto.
  - destruct (IH _ Hlen rest eq_refl m Hin)
      as (whole & name' & uid' & -> & before & t' & ws' & rest' & -> & Hl').
    exists whole, name', uid'. split; [reflexivity|].
    destruct Hl as (-> & _).
    exists (skipped ++ chars "package:" ++ name ++ ws ++ chars "uid:" ++ uid
            ++ before)%list, t', ws', rest'.
    split; [|exact Hl']. rewrite <- !app_assoc. reflexivity.
Qed.

Lemma find_uid_Some app ms u :
  find_uid app ms = Some u ->
  exists m, In m ms /\ string_of_list_ascii (str m 1) = app
            /\ ParseUint (str m 2) UINT32_MAX = Some u.
Proof.
  induction ms as [|m ms IH]; [discriminate|]. cbn [find_uid].
  destruct (ParseUint (str m 2) UINT32_MAX) as [v|] eqn:Hp.
  - destruct (String.eqb_spec (string_of_list_ascii (str m 1)) app) as [He|_].
    + intros [= <-]. exists m. split; [left; reflexivity|auto].
    + intros H. destruct (IH H) as (m' & Hin & Hm'). exists m'.
      split; [right; exact Hin|exact Hm'].
  - intros H. destruct (IH H) as (m' & Hin & Hm'). exists m'.
    split; [right; exact Hin|exact Hm'].
Qed.

Lemma find_uid_app name ms1 ms2 :
  find_uid name (ms1 ++ ms2)
  = match find_uid name ms1 with
    | Some u => Some u
    | None => find_uid name ms2
    end.
Proof.
  induction ms1 as [|m ms1 IH]; [reflexivity|]. cbn [app find_uid].
  destruct (ParseUint (str m 2) UINT32_MAX); [|exact IH].
  destruct (String.eqb _ _); [reflexivity|exact IH].
Qed.

Lemma ParseUint_Some s max v :
  ParseUint s max = Some v ->
  s <> [] /\ forallb is_digit s = true /\ v = decimal_value s /\ v <= max.
Proof.
  unfold ParseUint. destruct s as [|c s]; [discriminate|].
  destruct (forallb is_digit (c :: s)) eqn:Hd; [|discriminate].
  destruct (decimal_value (c :: s) <=? max) eqn:Hm; [|discriminate].
  cbn [andb]. intros [= <-]. apply Z.leb_le in Hm. auto.
Qed.

Lemma digit_value_range c : is_digit c = true -> 0 <= digit_value c <= 9.
Proof.
  unfold is_digit, in_range, digit_value. intros H.
  apply andb_true_iff in H as [H1 H2].
  apply N.leb_le in H1, H2. lia.
Qed.

Lemma decimal_value_nonneg s : forallb is_digit s = true -> 0 <= decimal_value s.
Proof.
  unfold decimal_value.
  assert (forall acc, 0 <= acc -> forallb is_digit s = true ->
            0 <= fold_left (fun acc c => 10 * acc + digit_value c) s acc) as H.
  { induction s as [|c s IH]; intros acc Hacc Hd; [exact Hacc|].
    cbn in *. apply andb_true_iff in Hd as [Hc Hd].
    apply IH; [|exact Hd]. pose proof (digit_value_range c Hc). lia. }
  apply H. lia.
Qed.

(** What resolution returns is written in the listing: the name asked for,
    after [package:], and the digits of the value, after [uid:]. *)
Lemma uid_in_listing_sound content app u :
  uid_in_listing content app = Some u ->
  exists uid, occurs_in content (chars app) uid
              /\ decimal_value uid = u /\ 0 <= u <= UINT32_MAX.
Proof.
  unfold uid_in_listing. intros H.
  destruct (find_uid_Some _ _ _ H) as (m & Hin & Hname & Hparse).
  destruct (sregex_iterator_sound _ _ Hin) as (whole & name & uid & -> & Hocc).
  cbn in Hname, Hparse. subst app.
  apply ParseUint_Some in Hparse as (_ & Hd & -> & Hmax).
  exists uid. unfold chars. rewrite list_ascii_of_string_of_list_ascii.
  split_and!; auto. apply decimal_value_nonneg, Hd.
Qed.

(** *** Matches do not run over the end of a line *)

Lemma last_cons_ne (c : ascii) t :
  last (c :: t) = Some newline -> c <> newline -> last t = Some newline.
Proof.
  rewrite last_cons. destruct (last t); [auto|]. intros [= ->]. contradiction.
Qed.

Lemma strip_within_lines l t X :
  last t = Some newline -> ~ In newline l ->
  strip l (t ++ X) = (fun r => (r ++ X)%list) <$> strip l t
  /\ forall t1, strip l t = Some t1 -> last t1 = Some newline.
Proof.
  revert t. induction l as [|a l IH]; intros t Ht Hl.
  { cbn. split; [reflexivity|]. intros t1 [= <-]. exact Ht. }
  destruct t as [|b t]; [discriminate|]. cbn.
  destruct (Ascii.eqb_spec a b) as [->|Hne]; [|split; [reflexivity|discriminate]].
  apply IH.
  - apply (last_cons_ne b); [exact Ht|]. intros ->. apply Hl. left. reflexivity.
  - intros Hin. apply Hl. right. exact Hin.
Qed.

Lemma span_within_lines p t X :
  last t = Some newline -> p newline = false ->
  span p (t ++ X) = ((span p t).1, ((span p t).2 ++ X)%list)
  /\ last (span p t).2 = Some newline.
Proof.
  intros Ht Hp. induction t as [|c t IH]; [discriminate|]. simpl.
  destruct (p c) eqn:Hc; [|split; [reflexivity|exact Ht]].
  assert (last t = Some newline) as Ht'.
  { apply (last_cons_ne c); [exact Ht|]. intros ->. congruence. }
  destruct (IH Ht') as [-> Hl]. destruct (span p t) as [a b].
  split; [reflexivity|exact Hl].
Qed.

Lemma span_before p t X :
  starts_with p X = false ->
  span p (t ++ X) = ((span p t).1, ((span p t).2 ++ X)%list).
Proof.
  intros HX. induction t as [|c t IH]; simpl.
  - destruct X as [|x X]; [reflexivity|]. simpl in *. rewrite HX. reflexivity.
  - destruct (p c); [|reflexivity]. rewrite IH.
    destruct (span p t) as [a b]. reflexivity.
Qed.

Lemma span_rest_last p t :
  last t = Some newline ->
  (span p t).2 = [] \/ last (span p t).2 = Some newline.
Proof.
  induction t as [|c t IH]; [discriminate|]. intros Ht. simpl.
  destruct (p c); [|right; exact Ht].
  destruct t as [|c' t]; [left; reflexivity|].
  assert (last (c' :: t) = Some newline) as Ht' by exact Ht.
  destruct (span p (c' :: t)) as [a b]. exact (IH Ht').
Qed.

(** Before a line that starts with [package:], and up to the end of the
    previous line, the scanner sees what it would see if the listing ended
    there. *)
Lemma scan_here_within_lines t X :
  last t = Some newline ->
  let X := "p"%char :: X in
  scan_here (t ++ X)
  = (fun x : text * text * text => (x.1, x.2 ++ X)) <$> scan_here t
  /\ forall n u r, scan_here t = Some (n, u, r) -> last r = Some newline.
Proof.
  intros Ht X'. unfold scan_here.
  destruct (strip_within_lines (chars "package:") t X' Ht) as [E1 L1].
  { cbn. intros H. decompose [or] H; discriminate || contradiction. }
  rewrite E1. destruct (strip (chars "package:") t) as [t1|];
    [|split; [reflexivity|discriminate]].
  specialize (L1 t1 eq_refl). cbn [fmap option_fmap option_map mbind option_bind].
  destruct (span_within_lines is_word_or_dot t1 X' L1 eq_refl) as [E2 L2].
  rewrite E2. destruct (span is_word_or_dot t1) as [name t2]. cbn [fst snd] in *.
  rewrite (span_before is_space t2 X' eq_refl).
  pose proof (span_rest_last is_space t2 L2) as L3.
  destruct (span is_space t2) as [ws t3]. cbn [fst snd] in *.
  destruct L3 as [->|L3]; [split; [reflexivity|discriminate]|].
  destruct (strip_within_lines (chars "uid:") t3 X' L3) as [E4 L4].
  { cbn. intros H. decompose [or] H; discriminate || contradiction. }
  rewrite E4. destruct (strip (chars "uid:") t3) as [t4|];
    [|split; [reflexivity|discriminate]].
  specialize (L4 t4 eq_refl). cbn [fmap option_fmap option_map mbind option_bind].
  destruct (span_within_lines is_digit t4 X' L4 eq_refl) as [E5 L5].
  rewrite E5. destruct (span is_digit t4) as [uid t5]. cbn [fst snd] in *.
  destruct (nonempty name && nonempty ws && nonempty uid);
    [|split; [reflexivity|discriminate]].
  split; [reflexivity|]. intros n u r [= _ _ <-]. exact L5.
Qed.

Lemma regex_search_within_lines t X :
  t = [] \/ last t = Some newline ->
  let X := "p"%char :: X in
  regex_search package_uid_re (t ++ X)
  = match regex_search package_uid_re t with
    | Some (m, r) => Some (m, r ++ X)
    | None => regex_search package_uid_re X
    end
  /\ forall m r, regex_search package_uid_re t = Some (m, r) ->
       last r = Some newline.
Proof.
  intros Ht X'. induction t as [|c t IH].
  { split; [reflexivity|]. cbn. discriminate. }
  destruct Ht as [Ht|Ht]; [discriminate|].
  cbn [app regex_search]. rewrite !match_here_scan.
  change (c :: t ++ X') with ((c :: t) ++ X').
  destruct (scan_here_within_lines (c :: t) X Ht) as [E L]. fold X' in E.
  rewrite E.
  destruct (scan_here (c :: t)) as [[[name uid] r]|] eqn:Hs.
  - cbn [fmap option_fmap option_map fst snd].
    destruct (scan_here_sound _ _ _ _ Hs) as (ws & Hl & _).
    split.
    + f_equal. f_equal. f_equal.
      rewrite !length_app.
      replace (length (c :: t) + length X' - (length r + length X'))%nat
        with (length (c :: t) - length r)%nat by lia.
      apply take_app_le. lia.
    + intros m r' [= _ <-]. exact (L _ _ _ eq_refl).
  - cbn [fmap option_fmap option_map].
    destruct t as [|c' t].
    + cbn [app]. split; [reflexivity|]. cbn. discriminate.
    + apply IH. right. exact Ht.
Qed.

Lemma whole_lines_last s : whole_lines s <-> s = [] \/ last s = Some newline.
Proof.
  unfold whole_lines. rewrite last_Some. reflexivity.
Qed.

Lemma sregex_iterator_before_line before X :
  whole_lines before ->
  let X := "p"%char :: X in
  sregex_iterator package_uid_re (before ++ X)
  = sregex_iterator package_uid_re before ++ sregex_iterator package_uid_re X.
Proof.
  intros Hb X'. remember (length before) as n eqn:Hn. revert before Hn Hb.
  induction n as [n IH] using lt_wf_ind. intros before -> Hb.
  apply whole_lines_last in Hb.
  destruct (regex_search_within_lines before X Hb) as [E L]. fold X' in E.
  rewrite (sregex_iterator_unfold (before ++ X')), E.
  rewrite (sregex_iterator_unfold before).
  destruct (regex_search package_uid_re before) as [[m r]|] eqn:Hs.
  - cbn [app]. f_equal.
    apply (IH (length r)); [exact (regex_search_shorter _ _ _ Hs)|reflexivity|].
    apply whole_lines_last. right. exact (L _ _ eq_refl).
  - cbn [app]. symmetry. apply sregex_iterator_unfold.
Qed.

Lemma ParseUint_digits s max :
  s <> [] -> forallb is_digit s = true -> decimal_value s <= max ->
  ParseUint s max = Some (decimal_value s).
Proof.
  intros Hs Hd Hm. unfold ParseUint. destruct s as [|c s]; [congruence|].
  rewrite Hd. apply Z.leb_le in Hm. rewrite Hm. reflexivity.
Qed.

(** The first listed line of a package decides its uid. *)
Lemma uid_in_listing_complete before t name ws uid rest :
  whole_lines before ->
  line_at t name ws uid rest ->
  decimal_value uid <= UINT32_MAX ->
  uid_in_listing before (string_of_list_ascii name) = None ->
  uid_in_listing (before ++ t) (string_of_list_ascii name)
  = Some (decimal_value uid).
Proof.
  intros Hb Hl Hmax Hnone. unfold uid_in_listing in *.
  pose proof (scan_here_complete _ _ _ _ _ Hl) as Hscan.
  destruct Hl as (Ht & _ & _ & _ & _ & Nu & Du & _).
  assert (exists X, t = "p"%char :: X) as [X HX] by (rewrite Ht; cbn; eauto).
  rewrite HX. rewrite (sregex_iterator_before_line before X Hb).
  rewrite find_uid_app, Hnone. rewrite <- HX.
  rewrite sregex_iterator_unfold.
  assert (regex_search package_uid_re t
          = Some ([take (length t - length rest) t; name; uid], rest)) as ->.
  { destruct t as [|c t]; cbn [regex_search]; rewrite match_here_scan, Hscan;
      reflexivity. }
  cbn [find_uid str nth].
  rewrite (ParseUint_digits uid UINT32_MAX Nu Du Hmax).
  rewrite String.eqb_refl. reflexivity.
Qed.

Lemma scan_all_unfold s :
  scan_all s
  = match scan_here s with
    | Some (name, uid, _) => [(name, uid)]
    | None => []
    end ++ match s with
           | [] => []
           | _ :: s' => scan_all s'
           end.
Proof. destruct s; reflexivity. Qed.

(** [scan_all] finds every occurrence of the line format. *)
Lemma occurs_in_scan_all s name uid :
  occurs_in s name uid -> In (name, uid) (scan_all s).
Proof.
  intros (before & t & ws & rest & -> & Hl).
  induction before as [|c before IH]; cbn [app].
  - rewrite scan_all_unfold, (scan_here_complete _ _ _ _ _ Hl).
    left. reflexivity.
  - rewrite scan_all_unfold. apply in_or_app. right. exact IH.
Qed.

(** C3, as the code has it.  When the listing holds, at the start of a line,
    [package:NAME uid:UID] with NAME a non-empty run of word characters and
    dots, UID a decimal number that fits in 32 bits and is not followed by a
    further digit, and nothing before that line resolves NAME, then
    [GetAppUid] returns exactly UID; and when the listing holds the name in
    that format nowhere, or only with uids that do not fit in 32 bits,
    [GetAppUid] returns no value. *)
Theorem listed_package_resolves env self w content :
  pm_list_packages env w = Some content ->
  (forall before t name ws uid rest,
     content = before ++ t ->
     whole_lines before ->
     line_at t name ws uid rest ->
     decimal_value uid <= UINT32_MAX ->
     PrepareCommand.app_name_ self = string_of_list_ascii name ->
     uid_in_listing before (PrepareCommand.app_name_ self) = None ->
     fst (PrepareCommand.GetAppUid env self w) = Done (Some (decimal_value uid)))
  /\ ((forall uid,
         occurs_in content (chars (PrepareCommand.app_name_ self)) uid ->
         UINT32_MAX < decimal_value uid) ->
      fst (PrepareCommand.GetAppUid env self w) = Done None).
Proof.
  intros Hpm.
  assert (fst (PrepareCommand.GetAppUid env self w)
          = Done (uid_in_listing content (PrepareCommand.app_name_ self))) as ->.
  { unfold PrepareCommand.GetAppUid, bind, run_pm_list_packages.
    rewrite Hpm. reflexivity. }
  split.
  - intros before t name ws uid rest -> Hb Hl Hmax Hname Hnone. f_equal.
    rewrite Hname in *. apply (uid_in_listing_complete _ _ _ ws _ rest); auto.
  - intros Habsent. f_equal.
    destruct (uid_in_listing content (PrepareCommand.app_name_ self))
      as [u|] eqn:Hu; [|reflexivity].
    destruct (uid_in_listing_sound _ _ _ Hu) as (uid & Hocc & Hval & Hmax).
    specialize (Habsent uid Hocc). lia.
Qed.

(** C9.  The first sub-match of the expression consists of word characters
    and dots only; hence an application name with any other character in it
    is never resolved, whatever the listing holds. *)
Theorem package_name_outside_class_not_found env self w :
  (forall content m,
     In m (sregex_iterator package_uid_re content) ->
     forallb is_word_or_dot (str m 1) = true)
  /\ (forallb is_word_or_dot (chars (PrepareCommand.app_name_ self)) = false ->
      fst (PrepareCommand.GetAppUid env self w) = Done None).
Proof.
  assert (forall content m,
     In m (sregex_iterator package_uid_re content) ->
     forallb is_word_or_dot (str m 1) = true) as Hclass.
  { intros content m Hin.
    destruct (sregex_iterator_sound _ _ Hin)
      as (whole & name & uid & -> & before & t & ws & rest & _ & Hl).
    destruct Hl as (_ & _ & Hw & _). exact Hw. }
  split; [exact Hclass|]. intros Hbad.
  unfold PrepareCommand.GetAppUid, bind, run_pm_list_packages.
  destruct (pm_list_packages env w) as [content|]; [|reflexivity].
  cbn. f_equal. unfold uid_in_listing.
  destruct (find_uid _ _) as [u|] eqn:Hu; [|reflexivity].
  destruct (find_uid_Some _ _ _ Hu) as (m & Hin & Hname & _).
  specialize (Hclass content m Hin).
  rewrite <- Hname in Hbad. unfold chars in Hbad.
  rewrite list_ascii_of_string_of_list_ascii in Hbad. congruence.
Qed.

Lemma listed_package_resolves_witness :
  let env := sample_env 13 (Some sample_listing) (fun _ => true) true in
  let self := {| PrepareCommand.app_name_ := "com.example.app";
                 PrepareCommand.days_ := 3 |} in
  let before := chars "package:com.android.shell uid:2000" ++ [newline] in
  let name := chars "com.example.app" in
  let ws := chars " " in
  let uid := chars "10123" in
  let rest := [newline] in
  let t := chars "package:" ++ name ++ ws ++ chars "uid:" ++ uid ++ rest in
  pm_list_packages env sample_world = Some sample_listing /\
  sample_listing = before ++ t /\
  whole_lines before /\
  line_at t name ws uid rest /\
  decimal_value uid <= UINT32_MAX /\
  PrepareCommand.app_name_ self = string_of_list_ascii name /\
  uid_in_listing before (PrepareCommand.app_name_ self) = None /\
  fst (PrepareCommand.GetAppUid env self sample_world) = Done (Some 10123) /\
  let large := chars "package:com.example.app uid:4294967296" ++ [newline] in
  let env' := sample_env 13 (Some large) (fun _ => true) true in
  occurs_in large name (chars "4294967296") /\
  (forall uid', occurs_in large (chars (PrepareCommand.app_name_ self)) uid' ->
                UINT32_MAX < decimal_value uid') /\
  fst (PrepareCommand.GetAppUid env' self sample_world) = Done None.
Proof.
  intros env self before name ws uid rest t.
  assert (whole_lines before) as Hb by (right; eexists; reflexivity).
  assert (line_at t name ws uid rest) as Hl
    by (repeat split; discriminate || reflexivity).
  assert (decimal_value uid <= UINT32_MAX) as Hmax by discriminate.
  assert (uid_in_listing before (PrepareCommand.app_name_ self) = None)
    as Hnone by (vm_compute; reflexivity).
  split; [reflexivity|]. split; [reflexivity|]. split; [exact Hb|].
  split; [exact Hl|]. split; [exact Hmax|]. split; [reflexivity|].
  split; [exact Hnone|].
  split.
  { exact (proj1 (listed_package_resolves env self sample_world sample_listing
                    eq_refl)
             before t name ws uid rest eq_refl Hb Hl Hmax eq_refl Hnone). }
  intros large env'.
  assert (forall uid',
            occurs_in large (chars (PrepareCommand.app_name_ self)) uid' ->
            UINT32_MAX < decimal_value uid') as Hlarge.
  { intros uid' Hocc. apply occurs_in_scan_all in Hocc.
    vm_compute in Hocc. destruct Hocc as [[= <-]|[]]. reflexivity. }
  split.
  { exists [], large, ws, rest. split; [reflexivity|].
    repeat split; discriminate || reflexivity. }
  split; [exact Hlarge|].
  exact (proj2 (listed_package_resolves env' self sample_world large eq_refl)
           Hlarge).
Defined.

(** The claim C3 as worded fails on names outside the class of the
    expression and on uids beyond 32 bits: the line is in the listing and
    the name is not resolved. *)
Lemma listed_package_not_resolved :
  let hyphen := chars "package:com.example-app uid:10123" ++ [newline] in
  let large := chars "package:com.example.app uid:4294967296" ++ [newline] in
  fst (PrepareCommand.GetAppUid
         (sample_env 13 (Some hyphen) (fun _ => true) true)
         {| PrepareCommand.app_name_ := "com.example-app";
            PrepareCommand.days_ := 3 |} sample_world) = Done None
  /\ fst (PrepareCommand.GetAppUid
            (sample_env 13 (Some large) (fun _ => true) true)
            {| PrepareCommand.app_name_ := "com.example.app";
               PrepareCommand.days_ := 3 |} sample_world) = Done None.
Proof. vm_compute. split; reflexivity. Qed.

Lemma package_name_outside_class_not_found_witness :
  let listing := chars "package:org.my-app uid:10077" ++ [newline] in
  let env := sample_env 13 (Some listing) (fun _ => true) true in
  let self := {| PrepareCommand.app_name_ := "org.my-app";
                 PrepareCommand.days_ := 1 |} in
  forallb is_word_or_dot (chars (PrepareCommand.app_name_ self)) = false /\
  fst (PrepareCommand.GetAppUid env self sample_world) = Done None.
Proof.
  intros listing env self.
  assert (forallb is_word_or_dot (chars (PrepareCommand.app_name_ self))
          = false) as Hbad by reflexivity.
  split; [exact Hbad|].
  exact (proj2 (package_name_outside_class_not_found env self sample_world)
           Hbad).
Defined.

(** ** [api-prepare] below Android 13 *)

Lemma prepare_preprocess_app_days (a d : string) :
  preprocess PrepareCommand.option_formats ["--app"; a; "--days"; d] ∅
  = match ParseUint (chars d) UINT64_MAX with
    | None => None
    | Some n =>
        Some (<["--days" := UintValue n]> (<["--app" := StrValue a]> ∅))
    end.
Proof. reflexivity. Qed.

(** [--app NAME --days DAYS] is accepted for every name and every decimal
    day count within [uint64_t], and stores both. *)
Lemma prepare_ParseOptions_app_days (a : string) (ds : text) :
  ds <> [] -> forallb is_digit ds = true -> decimal_value ds <= UINT64_MAX ->
  PrepareCommand.ParseOptions PrepareCommand.new
    ["--app"; a; "--days"; string_of_list_ascii ds]
  = (true, {| PrepareCommand.app_name_ := a;
              PrepareCommand.days_ := decimal_value ds |}).
Proof.
  intros Hne Hd Hmax.
  unfold PrepareCommand.ParseOptions, PreprocessOptions.
  rewrite prepare_preprocess_app_days.
  unfold chars. rewrite list_ascii_of_string_of_list_ascii.
  rewrite (ParseUint_digits ds UINT64_MAX Hne Hd Hmax).
  pose proof (decimal_value_nonneg ds Hd) as Hpos.
  set (n := decimal_value ds) in *. clearbody n.
  cbn [fmap option_fmap option_map].
  unfold PullValue, PullUintValue.
  assert ((<["--days":=UintValue n]> (<["--app":=StrValue a]> ∅)
           : OptionValueMap) !! "--app" = Some (StrValue a)) as ->
    by reflexivity.
  assert (delete "--app"
            (<["--days":=UintValue n]> (<["--app":=StrValue a]> ∅)
             : OptionValueMap) !! "--days" = Some (UintValue n)) as ->
    by reflexivity.
  cbn [uint_value str_value].
  assert ((n <? 0) = false) as -> by lia.
  assert ((UINT64_MAX <? n) = false) as -> by lia.
  reflexivity.
Qed.

(** Line 72 with its first conjunct false: lines 93-99 are all that runs. *)
Lemma prepare_Run_below_13 env self args self' w :
  GetAndroidVersion env < 13 ->
  PrepareCommand.ParseOptions self args = (true, self') ->
  PrepareCommand.Run env self args w
  = if CheckPerfEventLimit_ok env w
    then (Done (WriteTracepointsToFile_ok env (log CheckPerfEventLimit w)
                  "/data/local/tmp/tracepoint_events"),
          log (WriteTracepointsToFile "/data/local/tmp/tracepoint_events")
            (log CheckPerfEventLimit w))
    else (Done false, log CheckPerfEventLimit w).
Proof.
  intros Hv Hparse.
  unfold PrepareCommand.Run. rewrite Hparse. cbn [negb].
  unfold PrepareCommand.enable_profiling.
  assert ((13 <=? GetAndroidVersion env) = false) as ->
    by (apply Z.leb_gt; lia).
  cbn [andb].
  cbv [negb bind do_CheckPerfEventLimit ret do_WriteTracepointsToFile].
  destruct (CheckPerfEventLimit_ok env w); reflexivity.
Qed.

(** C6.  On a host whose Android version is below 13, every invocation whose
    options parse runs the transient branch and nothing else: the first call
    is the global perf-event-limit check, the tracepoint file follows exactly
    when the check succeeds, the handler returns what the last call returned,
    and no property is touched.  This holds whatever the parsed application
    name and day count are, and in particular for [--app NAME --days DAYS]
    with any name and any day count that fits [uint64_t], which always
    parses. *)
Theorem prepare_low_version_is_transient env w :
  GetAndroidVersion env < 13 ->
  let path := "/data/local/tmp/tracepoint_events" in
  let w1 := log CheckPerfEventLimit w in
  let transient :=
    if CheckPerfEventLimit_ok env w
    then (Done (WriteTracepointsToFile_ok env w1 path),
          log (WriteTracepointsToFile path) w1)
    else (Done false, w1) in
  (forall self args self',
     PrepareCommand.ParseOptions self args = (true, self') ->
     PrepareCommand.Run env self args w = transient)
  /\ (forall (a : string) (ds : text),
        ds <> [] -> forallb is_digit ds = true ->
        decimal_value ds <= UINT64_MAX ->
        PrepareCommand.Run env PrepareCommand.new
          ["--app"; a; "--days"; string_of_list_ascii ds] w = transient)
  /\ properties (snd transient) = properties w
  /\ calls (snd transient)
     = calls w ++ CheckPerfEventLimit ::
         (if CheckPerfEventLimit_ok env w
          then [WriteTracepointsToFile path] else []).
Proof.
  intros Hv path w1 transient. split_and!.
  - intros self args self' Hparse.
    apply (prepare_Run_below_13 env self args self' w Hv Hparse).
  - intros a ds Hne Hd Hmax.
    apply (prepare_Run_below_13 env _ _ _ w Hv
             (prepare_ParseOptions_app_days a ds Hne Hd Hmax)).
  - subst transient. destruct (CheckPerfEventLimit_ok env w); reflexivity.
  - subst transient. destruct (CheckPerfEventLimit_ok env w); cbn.
    + rewrite <- app_assoc. reflexivity.
    + reflexivity.
Qed.

Lemma prepare_low_version_is_transient_witness :
  let env := sample_env 12 (Some sample_listing) (fun _ => true) true in
  let path := "/data/local/tmp/tracepoint_events" in
  let done :=
    (Done true,
     {| properties := ∅; data_dir := Some sample_dir; zip := new_ZipWriter;
        calls := [CheckPerfEventLimit; WriteTracepointsToFile path] |}) in
  GetAndroidVersion env < 13 /\
  PrepareCommand.ParseOptions PrepareCommand.new sample_prepare_args
  = (true, {| PrepareCommand.app_name_ := "com.example.app";
              PrepareCommand.days_ := 3 |}) /\
  PrepareCommand.Run env PrepareCommand.new sample_prepare_args sample_world
  = done /\
  PrepareCommand.Run env PrepareCommand.new
    ["--app"; "org.other"; "--days"; "18446744073709551615"] sample_world
  = done.
Proof.
  intros env path done.
  assert (GetAndroidVersion env < 13) as Hv by reflexivity.
  pose proof (prepare_low_version_is_transient env sample_world Hv)
    as (Hany & Hfamily & _ & _).
  split; [exact Hv|]. split; [exact sample_prepare_args_parse|]. split.
  - exact (Hany PrepareCommand.new sample_prepare_args _
             sample_prepare_args_parse).
  - refine (Hfamily "org.other" (chars "18446744073709551615") _ _ _).
    + discriminate.
    + reflexivity.
    + vm_compute. discriminate.
Defined.

(** * Further properties of the handlers *)

(** ** Expiration arithmetic *)

Lemma expiration_time_bounds (d t : Z) :
  0 <= d -> 0 <= t <= UINT64_MAX ->
  t <= expiration_time d t <= UINT64_MAX.
Proof.
  intros Hd Ht. rewrite expiration_time_refines_spec.
  unfold expiration_spec, fits_uint64.
  destruct ((0 <=? d * 86400) && (d * 86400 <=? UINT64_MAX)
            && ((0 <=? t + d * 86400) && (t + d * 86400 <=? UINT64_MAX)))
    eqn:Hfit; [|lia].
  apply andb_true_iff in Hfit as [_ Hfit].
  apply andb_true_iff in Hfit as [_ Hfit]. apply Z.leb_le in Hfit. lia.
Qed.

(** X1.  With a clock that is not negative and a day count that is not
    negative, the expiration is never earlier than the current time and never
    above [UINT64_MAX]. *)
Theorem expiration_time_not_before_now (d t : Z) :
  0 <= d -> 0 <= t <= UINT64_MAX ->
  t <= expiration_time d t <= UINT64_MAX.
Proof. apply expiration_time_bounds. Qed.

Lemma expiration_time_not_before_now_witness :
  0 <= 3 /\ 0 <= 1700000000 <= UINT64_MAX /\
  1700000000 <= expiration_time 3 1700000000 <= UINT64_MAX.
Proof.
  assert (0 <= 3) as Hd by discriminate.
  assert (0 <= 1700000000 <= UINT64_MAX) as Ht by (split; discriminate).
  split; [exact Hd|]. split; [exact Ht|].
  exact (expiration_time_not_before_now 3 1700000000 Hd Ht).
Defined.

(** X2.  With a clock that is not negative, asking for more days never gives
    an earlier expiration: saturation keeps the order. *)
Theorem expiration_time_monotone (d1 d2 t : Z) :
  0 <= t -> 0 <= d1 <= d2 ->
  expiration_time d1 t <= expiration_time d2 t.
Proof.
  intros Ht Hd. rewrite !expiration_time_refines_spec.
  unfold expiration_spec, fits_uint64, UINT64_MAX.
  repeat match goal with
         | |- context [?a <=? ?b] => destruct (Z.leb_spec a b)
         end; cbn [andb]; lia.
Qed.

Lemma expiration_time_monotone_witness :
  0 <= 1700000000 /\ 0 <= 30 <= 213503982334601 /\
  expiration_time 30 1700000000 <= expiration_time 213503982334601 1700000000.
Proof.
  assert (0 <= 1700000000) as Ht by discriminate.
  assert (0 <= 30 <= 213503982334601) as Hd by (split; discriminate).
  split; [exact Ht|]. split; [exact Hd|].
  exact (expiration_time_monotone 30 213503982334601 1700000000 Ht Hd).
Defined.

(** ** [api-prepare]: the branches and the property store *)

(** X3.  On any Android version, an invocation that parses without an
    application name, or with a day count of zero, takes the transient
    branch: the perf-event-limit check is the first call, the package
    listing is not queried and no property is written. *)
Theorem prepare_without_app_or_days_is_transient env self args self' w :
  PrepareCommand.ParseOptions self args = (true, self') ->
  PrepareCommand.app_name_ self' = "" \/ PrepareCommand.days_ self' = 0 ->
  let r := PrepareCommand.Run env self args w in
  properties (snd r) = properties w /\
  calls (snd r) =
    calls w ++ CheckPerfEventLimit ::
      (if CheckPerfEventLimit_ok env w
       then [WriteTracepointsToFile "/data/local/tmp/tracepoint_events"]
       else []).
Proof.
  intros Hparse Hmissing r. subst r.
  unfold PrepareCommand.Run. rewrite Hparse. cbn [negb].
  unfold PrepareCommand.enable_profiling.
  assert ((13 <=? GetAndroidVersion env)
          && negb (String.eqb (PrepareCommand.app_name_ self') "")
          && negb (PrepareCommand.days_ self' =? 0) = false) as ->.
  { destruct Hmissing as [-> | ->]; cbn;
      rewrite ?andb_false_r; reflexivity. }
  cbv [negb bind do_CheckPerfEventLimit ret do_WriteTracepointsToFile].
  destruct (CheckPerfEventLimit_ok env w); trace_eq.
Qed.

Lemma prepare_without_app_or_days_is_transient_witness :
  let env := sample_env 14 (Some sample_listing) (fun _ => true) true in
  let args := ["--app"; "com.example.app"] in
  let self' := {| PrepareCommand.app_name_ := "com.example.app";
                  PrepareCommand.days_ := 0 |} in
  let r := PrepareCommand.Run env PrepareCommand.new args sample_world in
  PrepareCommand.ParseOptions PrepareCommand.new args = (true, self') /\
  (PrepareCommand.app_name_ self' = "" \/ PrepareCommand.days_ self' = 0) /\
  properties (snd r) = properties sample_world /\
  calls (snd r) =
    calls sample_world ++ CheckPerfEventLimit ::
      (if CheckPerfEventLimit_ok env sample_world
       then [WriteTracepointsToFile "/data/local/tmp/tracepoint_events"]
       else []).
Proof.
  intros env args self' r.
  assert (PrepareCommand.ParseOptions PrepareCommand.new args = (true, self'))
    as Hparse by (vm_compute; reflexivity).
  split; [exact Hparse|]. split; [right; reflexivity|].
  exact (prepare_without_app_or_days_is_transient env PrepareCommand.new args
           self' sample_world Hparse (or_intror eq_refl)).
Defined.

(** X4.  The property store after the durable branch: unchanged when the uid
    write fails; the new uid beside whatever expiration was stored before
    when only the expiration write fails; the new uid and the new expiration
    when both writes succeed.  No other key is ever touched. *)
Theorem prepare_property_store env self args self' w content uid :
  PrepareCommand.ParseOptions self args = (true, self') ->
  13 <= GetAndroidVersion env ->
  PrepareCommand.app_name_ self' <> "" ->
  PrepareCommand.days_ self' <> 0 ->
  pm_list_packages env w = Some content ->
  uid_in_listing content (PrepareCommand.app_name_ self') = Some uid ->
  let uid_key := "persist.simpleperf.profile_app_uid" in
  let exp_key := "persist.simpleperf.profile_app_expiration_time" in
  let exp :=
    pretty (expiration_time (PrepareCommand.days_ self') (time_now env)) in
  let w1 := log PmListPackages w in
  let w2 := set_properties (<[uid_key := pretty uid]> (properties w))
              (log (SetProperty uid_key (pretty uid)) w1) in
  let r := PrepareCommand.Run env self args w in
  properties (snd r) =
    if SetProperty_ok env w1 uid_key (pretty uid)
    then if SetProperty_ok env w2 exp_key exp
         then <[exp_key := exp]> (<[uid_key := pretty uid]> (properties w))
         else <[uid_key := pretty uid]> (properties w)
    else properties w.
Proof.
  intros Hparse Hv Ha Hd Hpm Huid uid_key exp_key exp w1 w2 r.
  subst r. unfold PrepareCommand.Run. rewrite Hparse.
  unfold PrepareCommand.enable_profiling.
  rewrite (durable_condition _ _ Hv Ha Hd).
  cbv [negb bind PrepareCommand.GetAppUid
       run_pm_list_packages ret do_SetProperty do_WriteTracepointsToFile].
  rewrite Hpm, Huid.
  fold uid_key exp_key exp w1.
  destruct (SetProperty_ok env w1 uid_key (pretty uid)).
  - change (properties w1) with (properties w). fold w2.
    destruct (SetProperty_ok env w2 exp_key exp); subst w2 w1; trace_eq.
  - subst w1. trace_eq.
Qed.

Lemma prepare_property_store_witness :
  let env := sample_env 13 (Some sample_listing) (fun _ => true) true in
  let self' := {| PrepareCommand.app_name_ := "com.example.app";
                  PrepareCommand.days_ := 3 |} in
  let r := PrepareCommand.Run env PrepareCommand.new sample_prepare_args
             sample_world in
  PrepareCommand.ParseOptions PrepareCommand.new sample_prepare_args
    = (true, self') /\
  13 <= GetAndroidVersion env /\
  PrepareCommand.app_name_ self' <> "" /\
  PrepareCommand.days_ self' <> 0 /\
  pm_list_packages env sample_world = Some sample_listing /\
  uid_in_listing sample_listing (PrepareCommand.app_name_ self') = Some 10123 /\
  properties (snd r) =
    <["persist.simpleperf.profile_app_expiration_time" := "1700259200"]>
      (<["persist.simpleperf.profile_app_uid" := "10123"]> ∅).
Proof.
  intros env self' r.
  assert (PrepareCommand.ParseOptions PrepareCommand.new sample_prepare_args
          = (true, self')) as Hparse by (vm_compute; reflexivity).
  assert (13 <= GetAndroidVersion env) as Hv by discriminate.
  assert (PrepareCommand.app_name_ self' <> "") as Ha by discriminate.
  assert (PrepareCommand.days_ self' <> 0) as Hd by discriminate.
  assert (uid_in_listing sample_listing (PrepareCommand.app_name_ self')
          = Some 10123) as Huid by (vm_compute; reflexivity).
  do 4 (split; [assumption|]). split; [reflexivity|]. split; [assumption|].
  pose proof (prepare_property_store env PrepareCommand.new
                sample_prepare_args self' sample_world sample_listing 10123
                Hparse Hv Ha Hd eq_refl Huid) as H.
  cbv zeta in H. unfold r. rewrite H. vm_compute. reflexivity.
Defined.

(** X5.  [PrepareCommand::Run] reports success only after it has written the
    tracepoint file, as its last call, and that write has reported
    success; and it always returns. *)
Theorem prepare_success_writes_tracepoints env self args w :
  let r := PrepareCommand.Run env self args w in
  (exists b, fst r = Done b) /\
  (fst r = Done true ->
   exists w0,
     snd r = log (WriteTracepointsToFile "/data/local/tmp/tracepoint_events") w0
     /\ WriteTracepointsToFile_ok env w0 "/data/local/tmp/tracepoint_events"
        = true).
Proof.
  intros r. subst r. unfold PrepareCommand.Run.
  destruct (PrepareCommand.ParseOptions self args) as [[] self'];
    cbn [negb]; [|split; [eexists; reflexivity|discriminate]].
  unfold PrepareCommand.enable_profiling.
  destruct ((13 <=? GetAndroidVersion env)
            && negb (String.eqb (PrepareCommand.app_name_ self') "")
            && negb (PrepareCommand.days_ self' =? 0)).
  - cbv [negb bind PrepareCommand.GetAppUid
         run_pm_list_packages ret do_SetProperty do_WriteTracepointsToFile].
    destruct (pm_list_packages env w) as [content|];
      [destruct (uid_in_listing content (PrepareCommand.app_name_ self'))|];
      try (split; [eexists; reflexivity|discriminate]).
    destruct (SetProperty_ok env _ _ _);
      [destruct (SetProperty_ok env _ _ _)|];
      try (split; [eexists; reflexivity|discriminate]).
    cbn [fst snd]. split; [eexists; reflexivity|].
    intros [= H]. eexists. split; [reflexivity|exact H].
  - cbv [negb bind ret do_CheckPerfEventLimit do_WriteTracepointsToFile].
    destruct (CheckPerfEventLimit_ok env w);
      [|split; [eexists; reflexivity|discriminate]].
    cbn [fst snd]. split; [eexists; reflexivity|].
    intros [= H]. eexists. split; [reflexivity|exact H].
Qed.

(** X6.  Whatever the package manager prints, a uid returned by [GetAppUid]
    fits an unsigned 32-bit integer, and none is returned for an empty
    application name. *)
Theorem GetAppUid_in_range env self w u :
  fst (PrepareCommand.GetAppUid env self w) = Done (Some u) ->
  0 <= u <= UINT32_MAX /\ PrepareCommand.app_name_ self <> "".
Proof.
  unfold PrepareCommand.GetAppUid, bind, run_pm_list_packages.
  destruct (pm_list_packages env w) as [content|]; [|discriminate].
  cbn. intros [= Hu].
  destruct (uid_in_listing_sound _ _ _ Hu)
    as (uid & (before & t & ws & rest & _ & Hl) & _ & Hrange).
  split; [exact Hrange|].
  destruct Hl as (_ & Hname & _). intros Hempty. rewrite Hempty in Hname.
  apply Hname. reflexivity.
Qed.

Lemma GetAppUid_in_range_witness :
  let env := sample_env 13 (Some sample_listing) (fun _ => true) true in
  let self := {| PrepareCommand.app_name_ := "com.android.shell";
                 PrepareCommand.days_ := 1 |} in
  fst (PrepareCommand.GetAppUid env self sample_world) = Done (Some 2000) /\
  0 <= 2000 <= UINT32_MAX /\ PrepareCommand.app_name_ self <> "".
Proof.
  intros env self.
  assert (fst (PrepareCommand.GetAppUid env self sample_world)
          = Done (Some 2000)) as H by (vm_compute; reflexivity).
  split; [exact H|].
  exact (GetAppUid_in_range env self sample_world 2000 H).
Defined.

Lemma prepare_success_writes_tracepoints_witness :
  let env := sample_env 12 None (fun _ => true) true in
  let r := PrepareCommand.Run env PrepareCommand.new sample_prepare_args
             sample_world in
  fst r = Done true /\
  exists w0,
    snd r = log (WriteTracepointsToFile "/data/local/tmp/tracepoint_events") w0
    /\ WriteTracepointsToFile_ok env w0 "/data/local/tmp/tracepoint_events"
       = true.
Proof.
  intros env r.
  assert (fst r = Done true) as H by (vm_compute; reflexivity).
  split; [exact H|].
  exact (proj2 (prepare_success_writes_tracepoints env PrepareCommand.new
                  sample_prepare_args sample_world) H).
Defined.

(** X12.  The day count an invocation parses is that of an [uint64_t]; hence,
    with a clock that is not negative, the expiration computed from what was
    parsed is never earlier than the current time. *)
Theorem prepare_parsed_days_in_range env self args self' :
  0 <= PrepareCommand.days_ self <= UINT64_MAX ->
  0 <= time_now env <= UINT64_MAX ->
  PrepareCommand.ParseOptions self args = (true, self') ->
  0 <= PrepareCommand.days_ self' <= UINT64_MAX
  /\ time_now env
     <= expiration_time (PrepareCommand.days_ self') (time_now env)
     <= UINT64_MAX.
Proof.
  intros Hdays Hnow Hparse.
  assert (0 <= PrepareCommand.days_ self' <= UINT64_MAX) as Hd.
  { revert Hparse. unfold PrepareCommand.ParseOptions.
    destruct (PreprocessOptions args PrepareCommand.option_formats)
      as [[options ordered_options]|]; [|discriminate].
    unfold PullValue, PullUintValue.
    set (self1 := match options !! "--app" with
                  | Some v => _
                  | None => self
                  end).
    assert (PrepareCommand.days_ self1 = PrepareCommand.days_ self) as Hself1
      by (subst self1; destruct (options !! "--app"); reflexivity).
    destruct (delete "--app" options !! "--days") as [v|].
    - destruct ((uint_value v <? 0) || (UINT64_MAX <? uint_value v))
        eqn:Hrange; cbn [negb]; [discriminate|].
      intros [= <-]. cbn. apply orb_false_iff in Hrange as [H1 H2].
      apply Z.ltb_ge in H1, H2. lia.
    - cbn [negb]. intros [= <-]. cbn. rewrite Hself1. exact Hdays. }
  split; [exact Hd|]. apply expiration_time_bounds; [lia|exact Hnow].
Qed.

Lemma prepare_parsed_days_in_range_witness :
  let env := sample_env 13 (Some sample_listing) (fun _ => true) true in
  let args := ["--days"; "18446744073709551615"] in
  let self' := {| PrepareCommand.app_name_ := "";
                  PrepareCommand.days_ := 18446744073709551615 |} in
  0 <= PrepareCommand.days_ PrepareCommand.new <= UINT64_MAX /\
  0 <= time_now env <= UINT64_MAX /\
  PrepareCommand.ParseOptions PrepareCommand.new args = (true, self') /\
  0 <= PrepareCommand.days_ self' <= UINT64_MAX
  /\ time_now env
     <= expiration_time (PrepareCommand.days_ self') (time_now env)
     <= UINT64_MAX.
Proof.
  intros env args self'.
  assert (0 <= PrepareCommand.days_ PrepareCommand.new <= UINT64_MAX) as Hd
    by (split; discriminate).
  assert (0 <= time_now env <= UINT64_MAX) as Hn by (split; discriminate).
  assert (PrepareCommand.ParseOptions PrepareCommand.new args = (true, self'))
    as Hparse by (vm_compute; reflexivity).
  split; [exact Hd|]. split; [exact Hn|]. split; [exact Hparse|].
  exact (prepare_parsed_days_in_range env PrepareCommand.new args self'
           Hd Hn Hparse).
Defined.

(** ** [api-collect]: option parsing and outer mode *)

Lemma collect_ParseOptions_post self args :
  exists ok self',
    CollectCommand.ParseOptions self args = Done (ok, self')
    /\ (ok = true ->
        CollectCommand.in_app_context_ self' = true
        \/ CollectCommand.app_name_ self' <> "").
Proof.
  unfold CollectCommand.ParseOptions.
  destruct (PreprocessOptions args GetApiCollectCmdOptionFormats)
    as [[options ordered_options]|] eqn:Hpre;
    [|exists false, self; split; [reflexivity|discriminate]].
  unfold PullValue, PullBoolValue.
  rewrite (collect_options_consumed _ _ _ Hpre).
  apply PreprocessOptions_keys in Hpre as [-> _].
  rewrite !bool_decide_eq_true_2 by reflexivity. cbn [negb].
  cbn [CollectCommand.in_app_context_ CollectCommand.app_name_].
  destruct (bool_decide _) eqn:Hin; cbn [negb andb].
  - eexists true, _. split; [reflexivity|]. intros _. left. reflexivity.
  - destruct (String.eqb_spec
                (from_option str_value (CollectCommand.app_name_ self)
                   (options !! "--app")) "") as [He|Hne].
    + eexists false, _. split; [reflexivity|discriminate].
    + eexists true, _. split; [reflexivity|]. intros _. right. exact Hne.
Qed.

(** X7.  The two [CHECK]s of [CollectCommand::ParseOptions] never fire: for
    all arguments the function returns, and when it returns [true] the
    handler either runs in the application's context or has an application
    name to switch to. *)
Theorem collect_ParseOptions_checks_hold self args :
  exists ok self',
    CollectCommand.ParseOptions self args = Done (ok, self')
    /\ (ok = true ->
        CollectCommand.in_app_context_ self' = true
        \/ CollectCommand.app_name_ self' <> "").
Proof. apply collect_ParseOptions_post. Qed.

Lemma collect_ParseOptions_outer self args self' :
  ~ In "--in-app" args ->
  CollectCommand.ParseOptions self args = Done (true, self') ->
  CollectCommand.in_app_context_ self' = false
  /\ CollectCommand.app_name_ self' <> ""
  /\ (CollectCommand.app_name_ self = "" -> In "--app" args).
Proof.
  intros Hno. unfold CollectCommand.ParseOptions.
  destruct (PreprocessOptions args GetApiCollectCmdOptionFormats)
    as [[options ordered_options]|] eqn:Hpre; [|discriminate].
  unfold PullValue, PullBoolValue.
  rewrite (collect_options_consumed _ _ _ Hpre).
  apply PreprocessOptions_keys in Hpre as [-> Hkeys].
  rewrite !bool_decide_eq_true_2 by reflexivity. cbn [negb].
  cbn [CollectCommand.in_app_context_ CollectCommand.app_name_].
  assert (delete "--app" options !! "--in-app" = None) as ->.
  { rewrite lookup_delete_ne by discriminate.
    destruct (options !! "--in-app") eqn:E; [|reflexivity].
    destruct (Hkeys "--in-app") as [Hin _]; [eauto|]. contradiction. }
  rewrite bool_decide_eq_false_2 by (intros [? [=]]). cbn [negb andb].
  destruct (String.eqb_spec
              (from_option str_value (CollectCommand.app_name_ self)
                 (options !! "--app")) "") as [He|Hne]; [discriminate|].
  intros [= <-]. cbn. split; [reflexivity|]. split; [exact Hne|].
  intros Hempty. destruct (options !! "--app") eqn:E.
  - destruct (Hkeys "--app") as [Hin _]; [eauto|exact Hin].
  - cbn in Hne. contradiction.
Qed.

(** Outer mode, from the parsed options: the name handed on is the value of
    [--app], the path the value of [-o] or the default. *)
Lemma collect_Run_outer env args options ordered_options w :
  PreprocessOptions args GetApiCollectCmdOptionFormats
    = Some (options, ordered_options) ->
  options !! "--in-app" = None ->
  let app := from_option str_value "" (options !! "--app") in
  let out := from_option str_value "simpleperf_data.zip" (options !! "-o") in
  CollectCommand.Run env CollectCommand.new args w
  = if String.eqb app "" then (Done false, w)
    else (Done (RunInAppContext_ok env w app args),
          log (RunInAppContext app "api-collect" args 0 out false) w).
Proof.
  intros Hpre Hno app out.
  unfold CollectCommand.Run, bind, lift, CollectCommand.ParseOptions.
  rewrite Hpre. unfold PullValue, PullBoolValue.
  rewrite (collect_options_consumed _ _ _ Hpre).
  apply PreprocessOptions_keys in Hpre as [-> Hkeys].
  rewrite !bool_decide_eq_true_2 by reflexivity. cbn [negb].
  cbn [CollectCommand.in_app_context_ CollectCommand.app_name_
       CollectCommand.output_filepath_ CollectCommand.new].
  assert (delete "--app" options !! "--in-app" = None) as ->
    by (rewrite lookup_delete_ne by discriminate; exact Hno).
  rewrite bool_decide_eq_false_2 by (intros [? [=]]). cbn [negb andb].
  rewrite !lookup_delete_ne by discriminate.
  fold app. fold out.
  destruct (String.eqb app ""); reflexivity.
Qed.

Lemma collect_preprocess_app_o (a o : string) :
  PreprocessOptions ["--app"; a; "-o"; o] GetApiCollectCmdOptionFormats
  = Some (<["-o" := StrValue o]> (<["--app" := StrValue a]> ∅), []).
Proof. reflexivity. Qed.

Lemma collect_preprocess_app (a : string) :
  PreprocessOptions ["--app"; a] GetApiCollectCmdOptionFormats
  = Some (<["--app" := StrValue a]> ∅, []).
Proof. reflexivity. Qed.

(** X8.  Outer mode only delegates, and it hands on what the command line
    holds.  When the options are accepted without the flag [--in-app] and
    [--app] has a non-empty value, the one call made is to the
    run-in-app-context helper, with that value as the application name, the
    command name [api-collect], the arguments as received, 0, the value of
    [-o] (or [simpleperf_data.zip] when [-o] is not given) and [false], and
    the handler returns what the helper returns; when [--app] is missing or
    empty nothing is done and the handler returns failure.  In particular
    [--app NAME -o PATH] hands on NAME and PATH, and [--app NAME] hands on
    NAME and the default path, for every non-empty NAME and every PATH. *)
Theorem collect_outer_mode_delegates env w :
  (forall args options ordered_options,
     PreprocessOptions args GetApiCollectCmdOptionFormats
       = Some (options, ordered_options) ->
     options !! "--in-app" = None ->
     let app := from_option str_value "" (options !! "--app") in
     let out :=
       from_option str_value "simpleperf_data.zip" (options !! "-o") in
     CollectCommand.Run env CollectCommand.new args w
     = if String.eqb app "" then (Done false, w)
       else (Done (RunInAppContext_ok env w app args),
             log (RunInAppContext app "api-collect" args 0 out false) w))
  /\ (forall a o : string,
        a <> "" ->
        let args := ["--app"; a; "-o"; o] in
        CollectCommand.Run env CollectCommand.new args w
        = (Done (RunInAppContext_ok env w a args),
           log (RunInAppContext a "api-collect" args 0 o false) w))
  /\ (forall a : string,
        a <> "" ->
        let args := ["--app"; a] in
        CollectCommand.Run env CollectCommand.new args w
        = (Done (RunInAppContext_ok env w a args),
           log (RunInAppContext a "api-collect" args 0
                  "simpleperf_data.zip" false) w)).
Proof.
  split_and!.
  - intros args options ordered_options Hpre Hno.
    apply (collect_Run_outer env args options ordered_options w Hpre Hno).
  - intros a o Ha args.
    rewrite (collect_Run_outer env args _ _ w
               (collect_preprocess_app_o a o) eq_refl).
    change (from_option str_value ""
              (<["-o":=StrValue o]> (<["--app":=StrValue a]> ∅
                 : OptionValueMap) !! "--app")) with a.
    change (from_option str_value "simpleperf_data.zip"
              (<["-o":=StrValue o]> (<["--app":=StrValue a]> ∅
                 : OptionValueMap) !! "-o")) with o.
    apply String.eqb_neq in Ha. rewrite Ha. reflexivity.
  - intros a Ha args.
    rewrite (collect_Run_outer env args _ _ w
               (collect_preprocess_app a) eq_refl).
    change (from_option str_value ""
              ((<["--app":=StrValue a]> ∅ : OptionValueMap) !! "--app"))
      with a.
    change (from_option str_value "simpleperf_data.zip"
              ((<["--app":=StrValue a]> ∅ : OptionValueMap) !! "-o"))
      with "simpleperf_data.zip".
    apply String.eqb_neq in Ha. rewrite Ha. reflexivity.
Qed.

Lemma collect_outer_mode_delegates_witness :
  let env := sample_env 13 None (fun _ => true) true in
  let args := ["--app"; "com.example.app"; "-o"; "out.zip"] in
  let options : OptionValueMap :=
    <["-o" := StrValue "out.zip"]>
      (<["--app" := StrValue "com.example.app"]> ∅) in
  PreprocessOptions args GetApiCollectCmdOptionFormats = Some (options, []) /\
  options !! "--in-app" = None /\
  "com.example.app" <> "" /\
  CollectCommand.Run env CollectCommand.new args sample_world
  = (Done true,
     {| properties := ∅; data_dir := Some sample_dir; zip := new_ZipWriter;
        calls := [RunInAppContext "com.example.app" "api-collect" args 0
                    "out.zip" false] |}) /\
  CollectCommand.Run env CollectCommand.new ["--app"; "com.example.app"]
    sample_world
  = (Done true,
     {| properties := ∅; data_dir := Some sample_dir; zip := new_ZipWriter;
        calls := [RunInAppContext "com.example.app" "api-collect"
                    ["--app"; "com.example.app"] 0
                    "simpleperf_data.zip" false] |}).
Proof.
  intros env args options.
  assert (PreprocessOptions args GetApiCollectCmdOptionFormats
          = Some (options, [])) as Hpre by reflexivity.
  assert ("com.example.app" <> "") as Ha by discriminate.
  pose proof (collect_outer_mode_delegates env sample_world)
    as (Hany & Hboth & Happ).
  split; [exact Hpre|]. split; [reflexivity|]. split; [exact Ha|].
  split.
  - exact (Hany args options [] Hpre eq_refl).
  - exact (Happ "com.example.app" Ha).
Defined.

(** ** [api-collect] in inner mode: what a failure leaves behind *)

Section PartialArchive.
Variable env : Env.

(** Whatever the outcome, the copy loop appends to the open entry a prefix of
    the bytes left in the file, in order, and touches nothing else of the
    stream. *)
Lemma read_loop_prefix path fuel :
  forall pos remaining w r w',
    CollectCommand.read_loop env fuel path pos remaining w = (r, w') ->
    exists written,
      written `prefix_of` remaining
      /\ current (zip w')
         = (fun e : string * list byte => (e.1, e.2 ++ written))
             <$> current (zip w)
      /\ entries (zip w') = entries (zip w)
      /\ finished (zip w') = finished (zip w).
Proof.
  assert (forall w : World,
            current (zip w)
            = (fun e : string * list byte => (e.1, e.2 ++ []))
                <$> current (zip w)) as Hnil.
  { intros w. destruct (current (zip w)) as [[n d]|]; cbn; [|reflexivity].
    rewrite app_nil_r. reflexivity. }
  induction fuel as [|fuel IH]; intros pos remaining w r w'.
  { cbn. intros [= <- <-]. exists []. split_and!; auto. apply prefix_nil. }
  cbn [CollectCommand.read_loop].
  destruct (read env w path pos remaining buffer_size <? 0).
  { intros [= <- <-]. exists []. split_and!; auto. apply prefix_nil. }
  destruct (read env w path pos remaining buffer_size =? 0).
  { intros [= <- <-]. exists []. split_and!; auto. apply prefix_nil. }
  remember (Z.to_nat (read env w path pos remaining buffer_size)) as n.
  unfold bind at 1. unfold WriteBytes at 1. cbv zeta.
  destruct (WriteBytes_result env w (take n remaining) =? 0) eqn:Hrc;
    cbv beta iota; rewrite Hrc; cbn [negb].
  - intros Hrun. apply IH in Hrun as (written & Hpre & Hc & He & Hf).
    exists (take n remaining ++ written). split_and!.
    + rewrite <- (take_drop n remaining) at 2.
      apply prefix_app, Hpre.
    + rewrite Hc. cbn. destruct (current (zip w)) as [[nm d]|]; cbn;
        [|reflexivity]. rewrite <- app_assoc. reflexivity.
    + exact He.
    + exact Hf.
  - intros [= <- <-]. exists []. split_and!; auto. apply prefix_nil.
Qed.

(** A turn of the [for] loop that fails leaves the open entry as it was, or
    leaves open the entry of the file at hand with a prefix of its bytes. *)
Lemma collect_entry_partial name w w' :
  CollectCommand.collect_entry env name w = (Done false, w') ->
  current (zip w') = current (zip w)
  \/ exists content partial,
       eligible w name = Some content
       /\ current (zip w') = Some (name, partial)
       /\ partial `prefix_of` content.
Proof.
  unfold CollectCommand.collect_entry, eligible, IsRegularFile.
  destruct (String.prefix "TemporaryFile-" name); [discriminate|].
  cbn [orb].
  destruct (stat w (SIMPLEPERF_DATA_DIR +:+ "/" +:+ name))
    as [[content|]|] eqn:Hstat; cbn [negb]; try discriminate.
  unfold bind at 1. unfold StartEntry at 1. cbv zeta.
  destruct (StartEntry_result env w name =? 0) eqn:Hstart;
    cbv beta iota; rewrite Hstart; cbn [negb].
  2: { intros [= <-]. left. reflexivity. }
  unfold bind at 1. unfold OpenReadOnly at 1.
  change (stat (set_zip ?z w) ?p) with (stat w p). rewrite Hstat.
  destruct (OpenReadOnly_ok env _ _); cbv beta iota.
  2: { intros [= <-]. right. exists content, []. cbn.
       split_and!; auto. apply prefix_nil. }
  unfold bind at 1.
  destruct (CollectCommand.read_loop env (S (length content))
              (SIMPLEPERF_DATA_DIR +:+ "/" +:+ name) 0 content _)
    as [r1 w1] eqn:Hrun.
  apply read_loop_prefix in Hrun as (written & Hpre & Hc & _ & _).
  cbn in Hc.
  assert (exists content0 partial,
            Some content = Some content0
            /\ current (zip w1) = Some (name, partial)
            /\ partial `prefix_of` content0) as Hright
    by (exists content, written; auto).
  destruct r1 as [[]| | |]; cbn [negb]; try discriminate.
  - unfold bind at 1. unfold FinishEntry at 1. cbv zeta.
    destruct (FinishEntry_result env w1 =? 0) eqn:Hfin;
      cbv beta iota; rewrite Hfin; cbn [negb]; [discriminate|].
    intros [= <-]. right. exact Hright.
  - intros [= <-]. right. exact Hright.
Qed.

(** The [for] loop closes the eligible entries of a prefix of the names, in
    order; the entry it may leave open is the next name, with a prefix of
    its bytes. *)
Lemma collect_entries_partial names :
  forall w ok w',
    CollectCommand.collect_entries env names w = (Done ok, w') ->
    current (zip w) = None ->
    exists k,
      entries (zip w')
      = entries (zip w)
        ++ omap (fun n => (fun c => (n, c)) <$> eligible w n) (take k names)
      /\ (ok = true -> k = length names)
      /\ (current (zip w') = None
          \/ exists name content partial,
               names !! k = Some name
               /\ eligible w name = Some content
               /\ current (zip w') = Some (name, partial)
               /\ partial `prefix_of` content).
Proof.
  induction names as [|name names IH]; intros w ok w'.
  { cbn. intros [= <- <-] Hc. exists 0%nat. cbn. rewrite app_nil_r. auto. }
  cbn [CollectCommand.collect_entries]. unfold bind at 1.
  destruct (collect_entry_spec env name w) as (ok1 & w1 & Hrun & Hfr & _ & Hcase).
  rewrite Hrun. destruct ok1; cbn [negb].
  - intros Hrest Hc.
    assert (entries (zip w1)
            = entries (zip w)
              ++ omap (fun n => (fun c => (n, c)) <$> eligible w n) [name]
            /\ current (zip w1) = None) as [He1 Hc1].
    { cbn. destruct (eligible w name) as [content|]; cbn.
      - destruct Hcase as [Hyes _]. exact (Hyes eq_refl).
      - destruct Hcase as [_ Hz]. rewrite Hz, app_nil_r. auto. }
    destruct (IH _ _ _ Hrest Hc1) as (k & He & Hk & Hopen).
    assert (forall l : list string,
      omap (fun n => (fun c => (n, c)) <$> eligible w1 n) l
      = omap (fun n => (fun c => (n, c)) <$> eligible w n) l) as Hel.
    { intros l. induction l as [|x l IHl]; [reflexivity|].
      cbn. rewrite (eligible_frame _ _ _ Hfr), IHl. reflexivity. }
    exists (S k). split_and!.
    + rewrite He, He1, Hel, <- app_assoc. f_equal.
      cbn. destruct (eligible w name); reflexivity.
    + intros Hok. cbn. rewrite (Hk Hok). reflexivity.
    + destruct Hopen as [Hnone|(n & content & partial & Hn & Hen & Hcur & Hp)];
        [left; exact Hnone|].
      right. exists n, content, partial. split_and!; auto.
      rewrite <- (eligible_frame _ _ _ Hfr). exact Hen.
  - intros [= <- <-] Hc. exists 0%nat. cbn. rewrite app_nil_r.
    assert (entries (zip w1) = entries (zip w)) as He.
    { destruct (eligible w name); [|destruct Hcase; discriminate].
      destruct Hcase as [_ Hno]. apply (Hno eq_refl). }
    split; [exact He|]. split; [discriminate|].
    destruct (collect_entry_partial _ _ _ Hrun)
      as [Hsame|(content & partial & Hen & Hcur & Hp)].
    + left. rewrite Hsame. exact Hc.
    + right. exists name, content, partial. auto.
Qed.

Lemma eligible_archived_sub w (d : directory) :
  data_dir w = Some d -> NoDup d.*1 ->
  forall l : directory, (forall e, In e l -> In e d) ->
    omap (fun n => (fun c => (n, c)) <$> eligible w n) l.*1 = omap archived l.
Proof.
  intros Hdir Hnd.
  induction l as [|[n nd] l IH]; intros Hsub; [reflexivity|].
  cbn. rewrite IH by (intros e He; apply Hsub; right; exact He).
  unfold eligible, archived. cbn [fst snd].
  rewrite (stat_data_dir _ _ _ Hdir).
  rewrite (lookup_node_NoDup d n nd Hnd) by (apply Hsub; left; reflexivity).
  destruct (String.prefix "TemporaryFile-" n); [reflexivity|].
  destruct nd; reflexivity.
Qed.

(** X9.  Partial output is a prefix.  Starting from an empty stream, whatever
    fails and wherever, the closed entries of the archive are exactly the
    regular, non-temporary files among the first [k] entries of the
    directory, in order and complete; and if an entry is left open it is
    that of the next directory entry, holding a prefix of the file's
    bytes. *)
Theorem collect_partial_output_is_prefix self w ok w' (d : directory) :
  data_dir w = Some d ->
  NoDup d.*1 ->
  zip w = new_ZipWriter ->
  CollectCommand.CollectRecordingData env self w = (Done ok, w') ->
  exists k,
    entries (zip w') = omap archived (take k d)
    /\ (ok = true -> take k d = d)
    /\ (current (zip w') = None
        \/ exists name content partial,
             d !! k = Some (name, RegularFile content)
             /\ current (zip w') = Some (name, partial)
             /\ partial `prefix_of` content).
Proof.
  intros Hdir Hnd Hzip. unfold CollectCommand.CollectRecordingData.
  destruct (Fdopen_ok env w (CollectCommand.out_fd_ self)); cbn [negb].
  2: { intros [= <- <-]. exists 0%nat. rewrite Hzip. cbn.
       split_and!; auto. discriminate. }
  unfold bind at 1.
  rewrite (GetEntriesInDir_data_dir _ _ Hdir).
  destruct (collect_entries_spec env d.*1 (set_zip new_ZipWriter w))
    as (ok1 & w1 & Hrun & Hfr & _).
  rewrite Hrun.
  destruct (collect_entries_partial _ _ _ _ Hrun eq_refl)
    as (k & He & Hk & Hopen).
  cbn [zip set_zip entries new_ZipWriter app] in He.
  assert (forall l : list string,
    omap (fun n => (fun c => (n, c)) <$> eligible (set_zip new_ZipWriter w) n) l
    = omap (fun n => (fun c => (n, c)) <$> eligible w n) l) as Hel.
  { intros l. induction l as [|x l IHl]; [reflexivity|].
    cbn. rewrite (eligible_frame w _ _ (frame_set_zip _ _)), IHl.
    reflexivity. }
  rewrite Hel, <- fmap_take in He.
  rewrite (eligible_archived_sub w d Hdir Hnd (take k d)) in He
    by (intros e Hin; apply list_elem_of_In; apply list_elem_of_In in Hin;
        exact (subseteq_take k d e Hin)).
  assert (exists k,
    entries (zip w1) = omap archived (take k d)
    /\ (ok1 = true -> take k d = d)
    /\ (current (zip w1) = None
        \/ exists name content partial,
             d !! k = Some (name, RegularFile content)
             /\ current (zip w1) = Some (name, partial)
             /\ partial `prefix_of` content)) as Hw1.
  { exists k. split; [exact He|]. split.
    - intros Hok. rewrite (Hk Hok), length_fmap. apply firstn_all.
    - destruct Hopen as [Hnone|(n & content & partial & Hn & Hen & Hcur & Hp)];
        [left; exact Hnone|].
      right. exists n, content, partial. split_and!; auto.
      apply list_lookup_fmap_Some_1 in Hn as ([n' nd] & -> & Hdk).
      cbn [fst] in *. etrans; [exact Hdk|]. f_equal. f_equal.
      rewrite (eligible_frame w _ _ (frame_set_zip _ _)) in Hen.
      unfold eligible in Hen. rewrite (stat_data_dir _ _ _ Hdir) in Hen.
      rewrite (lookup_node_NoDup d n' nd Hnd) in Hen
        by (apply list_elem_of_In; eapply list_elem_of_lookup_2; exact Hdk).
      destruct (String.prefix "TemporaryFile-" n'); [discriminate|].
      destruct nd; [|discriminate]. congruence. }
  destruct ok1; cbn [negb].
  2: { intros [= <- <-]. destruct Hw1 as (k' & H1 & _ & H3).
       exists k'. split_and!; auto. discriminate. }
  unfold bind at 1. unfold Finish at 1. cbv zeta.
  destruct (Finish_result env w1 =? 0) eqn:Hfin;
    cbv beta iota; rewrite Hfin; cbn [negb]; intros [= <- <-];
    destruct Hw1 as (k' & H1 & H2 & H3); exists k'; cbn; auto.
Qed.

(** X10.  Starting from a stream that is not finalized, the archive is
    finalized exactly when [CollectRecordingData] reports success: a caller
    that sees failure never holds a finished archive. *)
Theorem collect_finished_iff_success self w ok w' :
  finished (zip w) = false ->
  CollectCommand.CollectRecordingData env self w = (Done ok, w') ->
  finished (zip w') = ok.
Proof.
  intros Hf. unfold CollectCommand.CollectRecordingData.
  destruct (Fdopen_ok env w (CollectCommand.out_fd_ self)); cbn [negb].
  2: { intros [= <- <-]. exact Hf. }
  unfold bind at 1.
  destruct (collect_entries_spec env (GetEntriesInDir w SIMPLEPERF_DATA_DIR)
              (set_zip new_ZipWriter w))
    as (ok1 & w1 & Hrun & _ & Hf1 & _).
  rewrite Hrun. cbn in Hf1.
  destruct ok1; cbn [negb]; [|intros [= <- <-]; exact Hf1].
  unfold bind at 1. unfold Finish at 1. cbv zeta.
  destruct (Finish_result env w1 =? 0) eqn:Hfin;
    cbv beta iota; rewrite Hfin; cbn [negb]; intros [= <- <-];
    [reflexivity|exact Hf1].
Qed.
End PartialArchive.

Lemma collect_partial_output_is_prefix_witness :
  let r := CollectCommand.CollectRecordingData short_write_env
             CollectCommand.new sample_world in
  data_dir sample_world = Some sample_dir /\
  NoDup sample_dir.*1 /\
  zip sample_world = new_ZipWriter /\
  r = (Done false, snd r) /\
  current (zip (snd r)) = Some ("perf.data", list_byte_of_string "ab") /\
  exists k,
    entries (zip (snd r)) = omap archived (take k sample_dir)
    /\ (false = true -> take k sample_dir = sample_dir)
    /\ (current (zip (snd r)) = None
        \/ exists name content partial,
             sample_dir !! k = Some (name, RegularFile content)
             /\ current (zip (snd r)) = Some (name, partial)
             /\ partial `prefix_of` content).
Proof.
  intros r.
  assert (r = (Done false, snd r)) as Hrun by (vm_compute; reflexivity).
  split; [reflexivity|]. split; [exact sample_dir_NoDup|].
  split; [reflexivity|]. split; [exact Hrun|].
  split; [vm_compute; reflexivity|].
  exact (collect_partial_output_is_prefix short_write_env CollectCommand.new
           sample_world false (snd r) sample_dir eq_refl sample_dir_NoDup
           eq_refl Hrun).
Defined.

Lemma collect_finished_iff_success_witness :
  let r := CollectCommand.CollectRecordingData short_write_env
             CollectCommand.new sample_world in
  finished (zip sample_world) = false /\
  r = (Done false, snd r) /\
  finished (zip (snd r)) = false.
Proof.
  intros r.
  assert (r = (Done false, snd r)) as Hrun by (vm_compute; reflexivity).
  split; [reflexivity|]. split; [exact Hrun|].
  exact (collect_finished_iff_success short_write_env CollectCommand.new
           sample_world false (snd r) eq_refl Hrun).
Defined.

(** ** [api-collect] in inner mode, end to end *)

(** X11.  When an inner-mode run returns success, the data directory is gone,
    the archive on the output descriptor is finalized and holds exactly the
    regular, non-temporary files the directory had, the properties are
    untouched, and the calls made are the arming of the stop-signal thread
    followed by the removal command. *)
Theorem collect_inner_mode_success env self args self' w (d : directory) :
  CollectCommand.ParseOptions self args = Done (true, self') ->
  CollectCommand.in_app_context_ self' = true ->
  data_dir w = Some d ->
  NoDup d.*1 ->
  let r := CollectCommand.Run env self args w in
  fst r = Done true ->
  data_dir (snd r) = None
  /\ entries (zip (snd r)) = omap archived d
  /\ current (zip (snd r)) = None
  /\ finished (zip (snd r)) = true
  /\ properties (snd r) = properties w
  /\ calls (snd r)
     = calls w ++ [StopSignalThread (CollectCommand.stop_signal_fd_ self');
                   RunCmd ["rm"; "-rf"; "simpleperf_data"]].
Proof.
  intros Hparse Hin Hdir Hnd r.
  set (w1 := log (StopSignalThread (CollectCommand.stop_signal_fd_ self')) w).
  destruct (CollectRecordingData_spec env self' w1)
    as (collected & wc & Hrun & (Hp & Hd & Hc) & Hyes & _).
  intros Hret.
  destruct (collect_Run_inner_returns env self args self' w true Hparse Hin
              Hret) as (collected' & wc' & Hrun' & Hr).
  fold w1 in Hrun'. rewrite Hrun in Hrun'. injection Hrun' as <- <-.
  fold r in Hr. clearbody r. subst r. revert Hret.
  destruct collected; [|discriminate].
  destruct (Hyes eq_refl) as (He & Hcur & Hf).
  rewrite (GetEntriesInDir_data_dir w1 d Hdir) in He.
  rewrite (eligible_archived w1 d Hdir Hnd) in He.
  unfold CollectCommand.RemoveRecordingData, do_RunCmd.
  change SIMPLEPERF_DATA_DIR with "simpleperf_data".
  destruct (RunCmd_ok env wc ["rm"; "-rf"; "simpleperf_data"]);
    [|discriminate].
  intros _. cbn. rewrite Hc. subst w1. cbn. rewrite <- app_assoc.
  split_and!; auto.
Qed.

Lemma collect_inner_mode_success_witness :
  let env := sample_env 13 None (fun _ => true) true in
  let args := ["--in-app"; "--out-fd"; "7"; "--stop-signal-fd"; "8"] in
  let self' := {| CollectCommand.app_name_ := "";
                  CollectCommand.output_filepath_ := "simpleperf_data.zip";
                  CollectCommand.in_app_context_ := true;
                  CollectCommand.out_fd_ := 7;
                  CollectCommand.stop_signal_fd_ := 8 |} in
  let r := CollectCommand.Run env CollectCommand.new args sample_world in
  CollectCommand.ParseOptions CollectCommand.new args = Done (true, self') /\
  CollectCommand.in_app_context_ self' = true /\
  data_dir sample_world = Some sample_dir /\
  NoDup sample_dir.*1 /\
  fst r = Done true /\
  data_dir (snd r) = None
  /\ entries (zip (snd r)) = omap archived sample_dir
  /\ current (zip (snd r)) = None
  /\ finished (zip (snd r)) = true
  /\ properties (snd r) = properties sample_world
  /\ calls (snd r)
     = calls sample_world
       ++ [StopSignalThread (CollectCommand.stop_signal_fd_ self');
           RunCmd ["rm"; "-rf"; "simpleperf_data"]].
Proof.
  intros env args self' r.
  assert (CollectCommand.ParseOptions CollectCommand.new args
          = Done (true, self')) as Hparse by (vm_compute; reflexivity).
  assert (fst r = Done true) as Hok by (vm_compute; reflexivity).
  split; [exact Hparse|]. split; [reflexivity|]. split; [reflexivity|].
  split; [exact sample_dir_NoDup|]. split; [exact Hok|].
  exact (collect_inner_mode_success env CollectCommand.new args self'
           sample_world sample_dir Hparse eq_refl eq_refl sample_dir_NoDup Hok).
Defined.
